(** * Cayley: a shallow embedding of the facade, the schema mapper,
      the N-Quads scanner driver and the iterator contract.

    The development follows the packages of the repository:
    - [GoStrings]: the functions of Go's [strings] package that
      [schema.fieldRule] calls, over byte strings;
    - [Quad]: the value domain ([quad.Value], [quad.Quad]);
    - [Handle]: the facade of package [cayley] and its [Close];
    - [Schema]: package [schema] (field rules, [WriteAsQuads], the load loop,
      the registry of types, the namespaces and the paths of types);
    - [NQuads]: the driver of the Ragel scanner of package [nquads];
    - [Iterator]: the iterator contract exercised by [TestCount]. *)

From Stdlib Require Import ZArith String Ascii List Bool Lia.
From stdpp Require Import base option gmap strings list.

#[local] Set Warnings "-register-all".

Import ListNotations.
Local Open Scope string_scope.
Local Open Scope list_scope.

(** ** Outcomes of fallible Go code

    A Go function of the embedding either returns a value, returns a non-nil
    [error], or panics (an index out of range, a reflection call on a value of
    the wrong kind). *)

Inductive Res (E A : Type) : Type :=
| Ok (a : A)
| Err (e : E)
| Panic.

Arguments Ok {E A} a.
Arguments Err {E A} e.
Arguments Panic {E A}.

(** ** Go's [strings] package, as far as the mapper uses it

    Go strings are byte sequences; every separator and cut set the mapper
    passes is a one-byte constant, so the functions take that byte. *)

Module GoStrings.

(** [strings.TrimLeft(s, " ")]. *)
Fixpoint TrimLeft (s : string) (cut : ascii) : string :=
  match s with
  | EmptyString => EmptyString
  | String c r => if Ascii.eqb c cut then TrimLeft r cut else s
  end.

(** [strings.TrimRight(s, " ")]. *)
Fixpoint TrimRight (s : string) (cut : ascii) : string :=
  match s with
  | EmptyString => EmptyString
  | String c r =>
      match TrimRight r cut with
      | EmptyString => if Ascii.eqb c cut then EmptyString else String c EmptyString
      | r' => String c r'
      end
  end.

(** [strings.Trim(s, cutset)] for a one-byte cut set. *)
Definition Trim (s : string) (cut : ascii) : string :=
  TrimRight (TrimLeft s cut) cut.

(** [strings.Contains(s, substr)] for a one-byte [substr]. *)
Fixpoint Contains (s : string) (b : ascii) : bool :=
  match s with
  | EmptyString => false
  | String c r => Ascii.eqb c b || Contains r b
  end.

(** Puts a byte in front of the first piece of a split. *)
Definition consHead (c : ascii) (l : list string) : list string :=
  match l with
  | [] => [String c EmptyString]
  | h :: t => String c h :: t
  end.

(** [strings.Split(s, sep)]: all the pieces, at least one. *)
Fixpoint Split (s : string) (sep : ascii) : list string :=
  match s with
  | EmptyString => [EmptyString]
  | String c r =>
      if Ascii.eqb c sep then EmptyString :: Split r sep
      else consHead c (Split r sep)
  end.

(** [strings.SplitN(s, sep, n)] for [n >= 0]: at most [n] pieces, the last
    one being the unsplit remainder; [n = 0] gives the nil slice. *)
Fixpoint SplitN (s : string) (sep : ascii) (n : nat) : list string :=
  match n with
  | 0 => []
  | 1 => [s]
  | S (S _ as n') =>
      match s with
      | EmptyString => [EmptyString]
      | String c r =>
          if Ascii.eqb c sep then EmptyString :: SplitN r sep n'
          else consHead c (SplitN r sep n)
      end
  end.

End GoStrings.

(** ** Package [quad]: values and quads *)

Module Quad.

(** The concrete types implementing [quad.Value] (floats, times and
    sequences are left out). [IRI], [BNode] and [String] are string types. *)
Inductive QValue : Type :=
| IRI (s : string)
| BNode (s : string)
| String_ (s : string)
| Int (n : Z)
| Bool (b : bool)
| TypedString (s : string) (dt : string)
| LangString (s : string) (lang : string).

(** [quad.Value] is an interface: [None] is the nil interface. *)
Definition Value : Type := option QValue.

#[global] Instance QValue_eq_dec : EqDecision QValue.
Proof. solve_decision. Defined.

Record Quad : Type := mkQuad {
  Subject : Value;
  Predicate : Value;
  Object : Value;
  Label : Value
}.

#[global] Instance Quad_eq_dec : EqDecision Quad.
Proof. solve_decision. Defined.

End Quad.

(** ** Package [cayley]: the facade

    [Handle] embeds a [graph.QuadStore] and a [graph.QuadWriter]; both live in
    one world (the writer is created over the store, see [NewGraph]), so their
    [Close] methods are transitions of that world. The store's [Close] result
    is dropped by [Handle.Close]. *)

Module Handle.

Section Facade.

Variable World : Type.
Variable error : Type.

(** The two embedded interfaces, reduced to the method [Close] uses. *)
Record QuadWriter : Type := { QuadWriter_Close : World -> option error * World }.
Record QuadStore : Type := { QuadStore_Close : World -> option error * World }.

Record Handle : Type := mkHandle {
  hQuadStore : QuadStore;
  hQuadWriter : QuadWriter
}.

(** [func (h *Handle) Close() error]. *)
Definition Close (h : Handle) (w : World) : option error * World :=
  let '(err, w1) := QuadWriter_Close (hQuadWriter h) w in
  let '(_, w2) := QuadStore_Close (hQuadStore h) w1 in
  (err, w2).

(** Observation of the order of the calls: the world paired with the log of
    the [Close] calls made so far. *)
Inductive CloseEvent : Type := WriterClosed | StoreClosed.

Definition logged (ev : CloseEvent) (f : World -> option error * World)
  (wl : World * list CloseEvent) : option error * (World * list CloseEvent) :=
  let '(e, w') := f (fst wl) in (e, (w', snd wl ++ [ev])).

End Facade.

Arguments QuadWriter_Close {World error} _ _.
Arguments QuadStore_Close {World error} _ _.
Arguments hQuadStore {World error} _.
Arguments hQuadWriter {World error} _.
Arguments mkHandle {World error} _ _.
Arguments Close {World error} _ _.
Arguments logged {World error} _ _ _.

(** The handle whose two components log their [Close] calls. *)
Definition loggedHandle {World error : Type}
  (wc sc : World -> option error * World) : Handle (World * list CloseEvent) error :=
  mkHandle {| QuadStore_Close := logged StoreClosed sc |}
           {| QuadWriter_Close := logged WriterClosed wc |}.

End Handle.

(** ** Package [schema]: the data seen through [reflect] *)

Module Schema.

Import GoStrings.
Import Quad.

(** [reflect.Kind], as far as the package tests it. *)
Inductive Kind : Type :=
| KindString | KindInt | KindBool | KindInterface
| KindPtr | KindSlice | KindArray | KindChan | KindFunc | KindStruct.

#[global] Instance Kind_eq_dec : EqDecision Kind.
Proof. solve_decision. Defined.

(** The named types of package [quad] that implement [quad.Value] and are
    not structs. *)
Inductive QKind : Type :=
| QIRI | QBNode | QString | QInt | QBool.

(** What [fld.Tag.Get] returns for the keys [quad] and [json]
    (the empty string when the key is absent). *)
Record StructTag : Type := mkTag { tagQuad : string; tagJSON : string }.

(** [reflect.Type] as a finite tree. A struct type carries its name (empty
    for an unnamed type such as [struct{}]) and its fields in declaration
    order. *)
Inductive GoType : Type :=
| TString | TInt | TBool
| TQuad (k : QKind)
| TInterface
| TPtr (elem : GoType)
| TSlice (elem : GoType)
| TArray (elem : GoType)
| TChan (elem : GoType)
| TFunc
| TStruct (name : string) (fields : list StructField)
with StructField : Type :=
| mkField (fName : string) (fType : GoType) (fTag : StructTag) (fAnonymous : bool).

Definition Name (f : StructField) : string := let '(mkField n _ _ _) := f in n.
Definition Type_ (f : StructField) : GoType := let '(mkField _ t _ _) := f in t.
Definition Tag (f : StructField) : StructTag := let '(mkField _ _ t _) := f in t.
Definition Anonymous (f : StructField) : bool := let '(mkField _ _ _ a) := f in a.

(** [rt.Kind()]. *)
Definition KindOf (t : GoType) : Kind :=
  match t with
  | TString => KindString
  | TInt => KindInt
  | TBool => KindBool
  | TQuad QIRI | TQuad QBNode | TQuad QString => KindString
  | TQuad QInt => KindInt
  | TQuad QBool => KindBool
  | TInterface => KindInterface
  | TPtr _ => KindPtr
  | TSlice _ => KindSlice
  | TArray _ => KindArray
  | TChan _ => KindChan
  | TFunc => KindFunc
  | TStruct _ _ => KindStruct
  end.

Definition isKind (t : GoType) (k : Kind) : bool := bool_decide (KindOf t = k).

(** [fld.Type != reflEmptyStruct], where
    [reflEmptyStruct = reflect.TypeOf(struct{}{})]. *)
Definition isReflEmptyStruct (t : GoType) : bool :=
  match t with
  | TStruct EmptyString [] => true
  | _ => false
  end.

(** Go values, read together with their type. [VNil] is the nil pointer, the
    nil interface or the nil slice; [VIface] is a non-nil interface holding a
    value of the given dynamic type. *)
Inductive GoValue : Type :=
| VString (s : string)
| VInt (n : Z)
| VBool (b : bool)
| VQuad (q : QValue)
| VNil
| VPtr (v : GoValue)
| VIface (t : GoType) (v : GoValue)
| VSlice (l : list GoValue)
| VStruct (l : list GoValue).

(** A valid [reflect.Value]: a type and the value of that type. *)
Definition RValue : Type := (GoType * GoValue)%type.

(** An [interface{}] argument: nil, or a dynamic type with its value. *)
Definition Dyn : Type := option RValue.

(** [rv.Interface()]: the value as an [interface{}]; a value of interface
    kind gives what it holds. *)
Definition Interface (rv : RValue) : Dyn :=
  match rv with
  | (TInterface, VNil) => None
  | (TInterface, VIface t v) => Some (t, v)
  | _ => Some rv
  end.

(** [v, ok := o.(quad.Value)] on an [interface{}]. *)
Definition asQuadValue (o : Dyn) : option QValue :=
  match o with
  | Some (TQuad _, VQuad q) => Some q
  | _ => None
  end.

(** ** Rules *)

(** [IRIMode]. *)
Inductive IRIMode : Type := IRINative | IRIShort | IRIFull.

(** The three implementations of the [rule] interface; a nil [rule] is
    [None]. [Pred] and [Val] are [quad.IRI]s, that is strings. *)
Inductive rule : Type :=
| constraintRule (Pred : string) (Val : string) (Rev : bool)
| saveRule (Pred : string) (Rev : bool) (Opt : bool)
| idRule.

#[global] Instance rule_eq_dec : EqDecision rule.
Proof. solve_decision. Defined.

(** The errors the package builds. [fmt.Errorf] values are kept by the site
    that builds them with the arguments that decide their text; [ErrWriter]
    is an error returned by the [quad.Writer]. *)
Inductive error (WErr : Type) : Type :=
| ErrReqFieldNotSet (Field : string)
| ErrWrongTagFormat (rule : string)
| ErrNoPredicate (rule : string)
| ErrAnonNotSupported
| ErrCantLoadRules (e : error WErr)
| ErrNoRules
| ErrUnsupportedIdType
| ErrUnsupportedType
| ErrWriter (e : WErr).

Arguments ErrReqFieldNotSet {WErr} Field.
Arguments ErrWrongTagFormat {WErr} rule.
Arguments ErrNoPredicate {WErr} rule.
Arguments ErrAnonNotSupported {WErr}.
Arguments ErrCantLoadRules {WErr} e.
Arguments ErrNoRules {WErr}.
Arguments ErrUnsupportedIdType {WErr}.
Arguments ErrUnsupportedType {WErr}.
Arguments ErrWriter {WErr} e.

(** The constants of [fieldRule]. *)
Definition trim : ascii := " "%char.
Definition spo : ascii := ">"%char.
Definition ops : ascii := "<"%char.
Definition any : string := "*".
Definition none : string := "-".
Definition this : string := "@id".
Definition comma : ascii := ","%char.


(** What the package takes from outside the sources at hand: [quad.IRI.Short]
    and [quad.IRI.Full] (package [quad], over the prefixes of package [voc]),
    the constant [rdf.Type], [quad.AsValue], [quad.RandomBlankNode], the
    package variable [GenerateID], the registry [typeToIRI] as its readers see
    it (indexing a Go map gives the zero value, the empty IRI, for a missing
    key), and the [quad.Writer] the caller passes. Writer and generators act
    on one world. *)
Record Env (World WErr : Type) : Type := mkEnv {
  Short : string -> string;
  Full : string -> string;
  rdf_Type : string;
  AsValue : Dyn -> Value * bool;
  RandomBlankNode : World -> Value * World;
  GenerateID_pkg : option (Dyn -> World -> Value * World);
  typeToIRI : GoType -> string;
  WriteQuad : Quad -> World -> option WErr * World
}.

Arguments Short {World WErr} _ _.
Arguments Full {World WErr} _ _.
Arguments rdf_Type {World WErr} _.
Arguments AsValue {World WErr} _ _.
Arguments RandomBlankNode {World WErr} _ _.
Arguments GenerateID_pkg {World WErr} _.
Arguments typeToIRI {World WErr} _ _.
Arguments WriteQuad {World WErr} _ _ _.

(** [Config], without its caches (see [rulesFor]). *)
Record Config (World : Type) : Type := mkConfig {
  IRIs : IRIMode;
  GenerateID : option (Dyn -> World -> Value * World);
  Label : Value
}.

Arguments IRIs {World} _.
Arguments GenerateID {World} _.
Arguments Label {World} _.

Section Rules.

Context {World WErr : Type}.
Variable env : Env World WErr.

Definition iriType : string := rdf_Type env.

(** [func (c *Config) iri(v quad.IRI) quad.IRI]. *)
Definition iri (c : Config World) (v : string) : string :=
  match IRIs c with
  | IRIShort => Short env v
  | IRIFull => Full env v
  | IRINative => v
  end.

(** [func (c *Config) toIRI(s string) quad.IRI]. *)
Definition toIRI (c : Config World) (s : string) : string :=
  iri c (if String.eqb s "@type" then iriType else s).

(** The modifiers after the first comma of the [quad] tag. *)
Definition hasOpt (sub : list string) : bool :=
  existsb (fun s => String.eqb s "opt" || String.eqb s "optional") sub.
Definition hasReq (sub : list string) : bool :=
  existsb (fun s => String.eqb s "req" || String.eqb s "required") sub.

(** [tri[i]] on a slice of strings. *)
Definition index (tri : list string) (i : nat) : Res (error WErr) string :=
  match nth_error tri i with
  | Some s => Ok s
  | None => Panic
  end.

(** [func (c Config) fieldRule(fld reflect.StructField) (rule, error)]. *)
Definition fieldRule (c : Config World) (fld : StructField)
  : Res (error WErr) (option rule) :=
  let sub0 := Split (tagQuad (Tag fld)) comma in
  let tag := hd EmptyString sub0 in
  let sub := tl sub0 in
  let tag := Trim tag trim in
  let '(tag, jsn) :=
    if String.eqb tag ""
    then (hd EmptyString (SplitN (tagJSON (Tag fld)) comma 2), true)
    else (tag, false) in
  if String.eqb tag "" || String.eqb tag none then Ok None
  else
    let rule := Trim tag trim in
    if String.eqb rule this then Ok (Some idRule)
    else
      let opt := hasOpt sub in
      let req := hasReq sub in
      let opt := if req then false
                 else if isKind (Type_ fld) KindSlice then true else opt in
      let rev := Contains rule ops in
      let tri : Res (error WErr) (list string) :=
        if jsn then Ok [rule]
        else if rev then
          let tri := SplitN rule ops 3 in
          if negb (Nat.eqb (List.length tri) 2) then Err (ErrWrongTagFormat rule)
          else Ok tri
        else
          let tri := SplitN rule spo 3 in
          if Nat.ltb 2 (List.length tri) then Err (ErrWrongTagFormat rule)
          else Ok tri in
      match tri with
      | Err e => Err e
      | Panic => Panic
      | Ok tri =>
          let psvs : Res (error WErr) (string * string) :=
            if rev then
              match index tri 0, index tri 1 with
              | Ok a, Ok b => Ok (Trim a trim, Trim b trim)
              | _, _ => Panic
              end
            else
              match index tri 0 with
              | Ok a =>
                  if Nat.ltb 1 (List.length tri) then
                    match index tri 1 with
                    | Ok b => Ok (Trim a trim, Trim b trim)
                    | _ => Panic
                    end
                  else Ok (Trim a trim, any)
              | _ => Panic
              end in
          match psvs with
          | Err e => Err e
          | Panic => Panic
          | Ok (ps, vs) =>
              if String.eqb ps "" then Err (ErrNoPredicate rule)
              else
                let p := toIRI c ps in
                if String.eqb vs ""
                   || (String.eqb vs any && negb (isReflEmptyStruct (Type_ fld)))
                then Ok (Some (saveRule p rev opt))
                else Ok (Some (constraintRule p (toIRI c vs) rev))
          end
      end.


(** [func anonFieldType(fld reflect.StructField) (reflect.Type, bool)]. *)
Definition anonFieldType (fld : StructField) : GoType * bool :=
  let ft := Type_ fld in
  let ft := match ft with TPtr e => e | _ => ft end in
  (ft, isKind ft KindStruct).

(** [fieldRules], a [map[string]rule]. *)
Definition fieldRules : Type := gmap string rule.

(** [func (c *Config) rulesForStructTo(out fieldRules, pref string,
    rt reflect.Type) error]: the map [out] is updated in place, so the
    embedding returns it. [rt.NumField()] panics when [rt] is no struct. The
    call of [anonFieldType] is written out, so that the recursion is on a
    part of [rt]. *)
Fixpoint rulesForStructTo (c : Config World) (out : gmap string rule)
  (pref : string) (rt : GoType) {struct rt} : Res (error WErr) (gmap string rule) :=
  match rt with
  | TStruct _ fields =>
      (fix loop (fs : list StructField) (out : gmap string rule) {struct fs}
         : Res (error WErr) (gmap string rule) :=
         match fs with
         | [] => Ok out
         | f :: fs' =>
             let name := Name f in
             if Anonymous f then
               let ft := match Type_ f with TPtr e => e | _ => Type_ f end in
               if negb (isKind ft KindStruct) then Err ErrAnonNotSupported
               else
                 match rulesForStructTo c out (pref ++ name ++ ".")%string ft with
                 | Ok out' => loop fs' out'
                 | r => r
                 end
             else
               match fieldRule c f with
               | Err e => Err e
               | Panic => Panic
               | Ok rules =>
                   match rules with
                   | Some r => loop fs' (<[(pref ++ name)%string := r]> out)
                   | None => loop fs' out
                   end
               end
         end) fields out
  | _ => Panic
  end.

(** [func (c *Config) rulesFor(rt reflect.Type) (fieldRules, error)]. The
    cache [c.rulesForType] only memoises the result per type. *)
Definition rulesFor (c : Config World) (rt : GoType)
  : Res (error WErr) (gmap string rule) :=
  rulesForStructTo c ∅ "" rt.

End Rules.

(** ** Writing a Go value as quads *)

(** [reflect.Type.Comparable]: comparing with [==] two interfaces that hold
    the same type panics when this is false. *)
Fixpoint comparable (t : GoType) : bool :=
  match t with
  | TSlice _ | TFunc => false
  | TArray e => comparable e
  | TStruct _ fields =>
      (fix all (fs : list StructField) : bool :=
         match fs with
         | [] => true
         | f :: fs' => comparable (Type_ f) && all fs'
         end) fields
  | _ => true
  end.

(** Whether a value of a comparable type equals the zero value of its type. *)
Fixpoint isZeroValue (v : GoValue) : bool :=
  match v with
  | VString s => String.eqb s ""
  | VInt n => Z.eqb n 0
  | VBool b => negb b
  | VQuad (IRI s) | VQuad (BNode s) | VQuad (String_ s) => String.eqb s ""
  | VQuad (Int n) => Z.eqb n 0
  | VQuad (Bool b) => negb b
  | VQuad (TypedString s dt) => String.eqb s "" && String.eqb dt ""
  | VQuad (LangString s l) => String.eqb s "" && String.eqb l ""
  | VNil => true
  | VPtr _ => false
  | VIface _ _ => false
  | VSlice _ => false
  | VStruct l =>
      (fix all (vs : list GoValue) : bool :=
         match vs with
         | [] => true
         | x :: vs' => isZeroValue x && all vs'
         end) l
  end.

(** [func isZero(rv reflect.Value) bool], that is
    [rv.Interface() == reflect.Zero(rv.Type()).Interface()]. For a value of
    interface kind the right side is the nil interface. *)
Definition isZero {E : Type} (rv : RValue) : Res E bool :=
  if isKind (fst rv) KindInterface then
    Ok (match Interface rv with None => true | Some _ => false end)
  else if comparable (fst rv) then Ok (isZeroValue (snd rv))
  else Panic.

(** [rv.Field(i)] on a struct value. *)
Definition Field (rv : GoValue) (i : nat) : option GoValue :=
  match rv with
  | VStruct vs => nth_error vs i
  | _ => None
  end.

(** The elements [sl.Index(0)], ..., [sl.Index(sl.Len()-1)] of a slice. *)
Definition elements (sl : GoValue) : list GoValue :=
  match sl with
  | VSlice l => l
  | _ => []
  end.

Section Write.

Context {World WErr : Type}.
Variable env : Env World WErr.
Variable c : Config World.

(** Code that may write to the writer, draw an identifier, fail or panic. *)
Definition M (A : Type) : Type := World -> Res (error WErr) A * World.

Definition ret {A : Type} (a : A) : M A := fun w => (Ok a, w).
Definition fail {A : Type} (e : error WErr) : M A := fun w => (Err e, w).
Definition panic {A : Type} : M A := fun w => (Panic, w).
Definition lift {A : Type} (r : Res (error WErr) A) : M A := fun w => (r, w).

Definition bind {A B : Type} (m : M A) (k : A -> M B) : M B :=
  fun w =>
    match m w with
    | (Ok a, w') => k a w'
    | (Err e, w') => (Err e, w')
    | (Panic, w') => (Panic, w')
    end.

(** [for _, x := range l], stopping at the first error. *)
Fixpoint forEach {A : Type} (l : list A) (body : A -> M unit) : M unit :=
  match l with
  | [] => ret tt
  | x :: l' => bind (body x) (fun _ => forEach l' body)
  end.

(** [w.WriteQuad(q)]. *)
Definition writeQuad (q : Quad) : M unit :=
  fun w =>
    match WriteQuad env q w with
    | (None, w') => (Ok tt, w')
    | (Some e, w') => (Err (ErrWriter e), w')
    end.

(** [func (c *Config) genID(o interface{}) quad.Value]. *)
Definition genID (o : Dyn) : World -> Value * World :=
  match GenerateID c with
  | Some gen => gen o
  | None =>
      match GenerateID_pkg env with
      | Some gen => gen o
      | None => RandomBlankNode env
      end
  end.

(** The type switch of [idFor] on [vid := rv.Field(i).Interface()]. *)
Definition idOfField (vid : Dyn) : Res (error WErr) Value :=
  match vid with
  | Some (TQuad QIRI, VQuad (IRI s)) => Ok (Some (IRI (iri env c s)))
  | Some (TQuad QBNode, VQuad (BNode s)) => Ok (Some (BNode s))
  | Some (TString, VString s) => Ok (Some (IRI (toIRI env c s)))
  | _ => Err ErrUnsupportedIdType
  end.

(** The first loop of [idFor]: the outcome of the first field whose rule is
    [idRule], if there is one, and otherwise [hasAnon]. *)
Fixpoint idForFirst (rules : gmap string rule) (fs : list StructField)
  (rv : GoValue) (pref : string) (i : nat) (hasAnon : bool)
  : Res (error WErr) Value + bool :=
  match fs with
  | [] => inr hasAnon
  | fld :: fs' =>
      let hasAnon := hasAnon || Anonymous fld in
      match rules !! (pref ++ Name fld)%string with
      | Some idRule =>
          match Field rv i with
          | Some fv => inl (idOfField (Interface (Type_ fld, fv)))
          | None => inl Panic
          end
      | _ => idForFirst rules fs' rv pref (S i) hasAnon
      end
  end.

(** [func (c *Config) idFor(rules fieldRules, rt reflect.Type,
    rv reflect.Value, pref string) (id quad.Value, err error)]. *)
Fixpoint idFor (rules : gmap string rule) (rt : GoType) (rv : GoValue)
  (pref : string) {struct rt} : Res (error WErr) Value :=
  match rt with
  | TStruct _ fields =>
      match idForFirst rules fields rv pref 0 false with
      | inl r => r
      | inr false => Ok None
      | inr true =>
          (fix second (fs : list StructField) (i : nat) {struct fs}
             : Res (error WErr) Value :=
             match fs with
             | [] => Ok None
             | fld :: fs' =>
                 if negb (Anonymous fld) then second fs' (S i)
                 else
                   match Field rv i with
                   | None => Panic
                   | Some fv =>
                       match idFor rules (Type_ fld) fv
                               (pref ++ Name fld ++ ".")%string with
                       | Ok None => second fs' (S i)
                       | r => r
                       end
                   end
             end) fields 0
      end
  | _ => Panic
  end.


(** [rv.Elem()] when [rv.Kind() == reflect.Ptr], [rv] otherwise. The
    element of a nil pointer is the invalid [reflect.Value], on which
    [Type] and [Interface] panic. *)
Definition derefType (rt : GoType) : GoType :=
  match rt with TPtr e => e | _ => rt end.

Definition derefValue (rt : GoType) (rv : GoValue) : M GoValue :=
  match rt, rv with
  | TPtr _, VPtr v => ret v
  | TPtr _, _ => panic
  | _, _ => ret rv
  end.

(** The type of [sl.Index(j)]. *)
Definition elemType (rt : GoType) : GoType :=
  match rt with TSlice e => e | _ => rt end.

Definition quadOf (s p o : Value) (rev : bool) : Quad :=
  if rev then mkQuad o p s (Label c) else mkQuad s p o (Label c).

(** The type quad [writeValueAs] starts with. *)
Definition typeQuad (id : Value) (iri_ : string) : Quad :=
  mkQuad id (Some (IRI (iri env c (iriType env))))
    (Some (IRI (iri env c iri_))) (Label c).

Section Recursion.

(** [c.WriteAsQuads(w, rv.Interface())] for the value [rv] of the given type,
    as [writeOneValReflect] calls it. *)
Variable writeSub : GoType -> GoValue -> M Value.

(** [func (c *Config) writeOneValReflect(w quad.Writer, id quad.Value,
    pred quad.Value, rv reflect.Value, rev bool) error]. *)
Definition writeOneValReflectWith (id pred : Value) (rt : GoType)
  (rv : GoValue) (rev : bool) : M unit :=
  bind (lift (isZero (rt, rv))) (fun z =>
    if z : bool then ret tt
    else
      let '(targ, ok) := AsValue env (Interface (rt, rv)) in
      bind
        (if ok : bool then ret (targ, ok)
         else
           bind (derefValue rt rv) (fun rv1 =>
             let rt1 := derefType rt in
             let '(targ, ok) := AsValue env (Interface (rt1, rv1)) in
             if negb ok && isKind rt1 KindStruct
             then bind (writeSub rt1 rv1) (fun sid => ret (sid, true))
             else ret (targ, ok)))
        (fun r =>
           if negb (snd r) then fail ErrUnsupportedType
           else writeQuad (quadOf id pred (fst r) rev))).

End Recursion.

Section Body.

(** [c.writeValueAs], as [WriteAsQuads] calls it. *)
Variable writeValue :
  Value -> GoType -> GoValue -> string -> gmap string rule -> M unit.

(** [func (c *Config) WriteAsQuads(w quad.Writer, o interface{})
    (quad.Value, error)] on the [interface{}] [o] holding [rv0] of type
    [rt0]. *)
Definition WriteAsQuadsWith (o : Dyn) (rt0 : GoType) (rv0 : GoValue) : M Value :=
  match asQuadValue o with
  | Some v => ret (Some v)
  | None =>
      bind (derefValue rt0 rv0) (fun rv =>
        let rt := derefType rt0 in
        match rulesFor env c rt with
        | Panic => panic
        | Err e => fail (ErrCantLoadRules e)
        | Ok rules =>
            if Nat.eqb (size rules) 0 then fail ErrNoRules
            else
              bind (lift (idFor rules rt rv "")) (fun id =>
                bind (match id with
                      | Some _ => ret id
                      | None => fun w => let '(v, w') := genID o w in (Ok v, w')
                      end) (fun id =>
                  bind (writeValue id rt rv "" rules) (fun _ => ret id)))
        end)
  end.

End Body.

Section Fields.

(** [c.writeValueAs] and [c.writeOneValReflect], as the loop over the fields
    calls them. *)
Variable writeValue :
  Value -> GoType -> GoValue -> string -> gmap string rule -> M unit.
Variable writeOne : Value -> Value -> GoType -> GoValue -> bool -> M unit.

(** The body of the loop [for i := 0; i < rt.NumField(); i++] of
    [writeValueAs], for the field [f = rt.Field(i)] of the struct [rv]. *)
Definition writeField (id : Value) (rv : GoValue) (pref : string)
  (rules : gmap string rule) (f : StructField) (i : nat) : M unit :=
  if Anonymous f then
    match Field rv i with
    | None => panic
    | Some fv => writeValue id (Type_ f) fv (pref ++ Name f ++ ".")%string rules
    end
  else
    match rules !! (pref ++ Name f)%string with
    | Some (constraintRule p v rev) =>
        writeQuad (quadOf id (Some (IRI p)) (Some (IRI v)) rev)
    | Some (saveRule p rev opt) =>
        match Field rv i with
        | None => panic
        | Some fv =>
            if isKind (Type_ f) KindSlice then
              forEach (elements fv) (fun x =>
                writeOne id (Some (IRI p)) (elemType (Type_ f)) x rev)
            else
              bind
                (if negb opt then
                   bind (lift (isZero (Type_ f, fv))) (fun z =>
                     if z : bool then fail (ErrReqFieldNotSet (Name f))
                     else ret tt)
                 else ret tt)
                (fun _ => writeOne id (Some (IRI p)) (Type_ f) fv rev)
        end
    | _ => ret tt
    end.

(** The loop itself, from the field of index [i] on. *)
Fixpoint writeFieldsWith (id : Value) (rv : GoValue) (pref : string)
  (rules : gmap string rule) (fs : list StructField) (i : nat) {struct fs}
  : M unit :=
  match fs with
  | [] => ret tt
  | f :: fs' =>
      bind (writeField id rv pref rules f i) (fun _ =>
        writeFieldsWith id rv pref rules fs' (S i))
  end.

End Fields.

(** [func (c *Config) writeValueAs(w quad.Writer, id quad.Value,
    rv reflect.Value, pref string, rules fieldRules) error]. *)
Fixpoint writeValueAs (id : Value) (rt0 : GoType) (rv0 : GoValue)
  (pref : string) (rules : gmap string rule) {struct rt0} : M unit :=
  bind (derefValue rt0 rv0) (fun rv =>
    let rt := match rt0 with TPtr e => e | _ => rt0 end in
    let iri_ := typeToIRI env rt in
    bind (if negb (String.eqb iri_ "") then writeQuad (typeQuad id iri_)
          else ret tt) (fun _ =>
      match rt with
      | TStruct _ fields =>
          writeFieldsWith writeValueAs
            (writeOneValReflectWith
               (fun t v => WriteAsQuadsWith writeValueAs (Interface (t, v)) t v))
            id rv pref rules fields 0
      | _ => panic
      end)).

(** [c.WriteAsQuads(w, rv.Interface())]. *)
Definition writeSub (rt : GoType) (rv : GoValue) : M Value :=
  WriteAsQuadsWith writeValueAs (Interface (rt, rv)) rt rv.

(** [c.writeOneValReflect]. *)
Definition writeOneValReflect : Value -> Value -> GoType -> GoValue -> bool -> M unit :=
  writeOneValReflectWith writeSub.

(** The loop of [writeValueAs] over the fields [fs] of the struct [rv]. *)
Definition writeFields : Value -> GoValue -> string -> gmap string rule ->
  list StructField -> nat -> M unit :=
  writeFieldsWith writeValueAs writeOneValReflect.

(** [c.WriteAsQuads(w, o)]; the nil interface makes [rv.Type()] panic. *)
Definition WriteAsQuads (o : Dyn) : M Value :=
  match o with
  | Some (rt0, rv0) => WriteAsQuadsWith writeValueAs o rt0 rv0
  | None => panic
  end.

End Write.

(** ** Loading quads into Go values *)

(** The errors of the load path. [errNotFound] and
    [errRequiredFieldIsMissing] are the two package variables; the others are
    built on the way ([fmt.Errorf], the context, the store, the converter). *)
Inductive loadError : Type :=
| errNotFound
| errRequiredFieldIsMissing
| ErrNilDestination
| ErrExpectedStruct
| ErrRules
| ErrContext
| ErrIterator
| ErrField (msg : string).

#[global] Instance loadError_eq_dec : EqDecision loadError.
Proof. solve_decision. Defined.

(** [func IsNotFound(err error) bool]. *)
Definition IsNotFound (err : loadError) : bool :=
  bool_decide (err = errNotFound) || bool_decide (err = errRequiredFieldIsMissing).

(** What a load appends to, sends on, or fills: [dst] after the pointer is
    followed. A channel is closed when the load returns. *)
Inductive Destination : Type :=
| DstStruct (v : GoValue)
| DstSlice (l : list GoValue)
| DstChan (sent : list GoValue) (closed : bool).

(** The zero value [reflect.New(et).Elem()] starts from. *)
Fixpoint zeroOf (t : GoType) : GoValue :=
  match t with
  | TString => VString ""
  | TInt => VInt 0
  | TBool => VBool false
  | TQuad QIRI => VQuad (IRI "")
  | TQuad QBNode => VQuad (BNode "")
  | TQuad QString => VQuad (String_ "")
  | TQuad QInt => VQuad (Int 0)
  | TQuad QBool => VQuad (Bool false)
  | TStruct _ fields =>
      VStruct ((fix zeros (fs : list StructField) : list GoValue :=
                  match fs with
                  | [] => []
                  | f :: fs' => zeroOf (Type_ f) :: zeros fs'
                  end) fields)
  | _ => VNil
  end.

Section Load.

(** [graph.Value], the store's reference to a node, with the optional
    [Key() interface{}] method [keysEqual] looks for. *)
Variable GValue : Type.
Context `{EqDecision GValue}.
Variable KeyT : Type.
Context `{EqDecision KeyT}.
Variable Key : GValue -> option KeyT.

(** [func keysEqual(v1, v2 graph.Value) bool]. *)
Definition keysEqual (v1 v2 : GValue) : bool :=
  match Key v1, Key v2 with
  | Some k1, Some k2 => bool_decide (k1 = k2)
  | None, None => bool_decide (v1 = v2)
  | _, _ => false
  end.

(** Modelled from the spec: the [graph.Iterator] the load drives (package
    [graph] is not among the sources), by what the NextPath protocol of the
    spec lets a caller see. Each successful [Next] gives one [Result]: the tag
    bindings [TagResults] copies out, and the bindings after each successful
    [NextPath]. [Err] is read once [Next] has failed. *)
Record Result : Type := mkResult {
  tags : gmap string GValue;
  paths : list (gmap string GValue)
}.

Record Iterator : Type := mkIterator {
  results : list Result;
  itErr : bool
}.

(** The body of [for k, v := range mp] in [loadIteratorToDepth], for one
    key: what [mo[k]] becomes. *)
Definition mergeTag (sl : option (list GValue)) (v : GValue) : list GValue :=
  match sl with
  | None => [v]
  | Some [x] => if negb (keysEqual x v) then [x; v] else [x]
  | Some sl => if existsb (fun sv => keysEqual sv v) sl then sl else sl ++ [v]
  end.

(** One round of [for it.NextPath(ctx)]: [mp] is merged into [mo], unless
    it is empty. The keys are handled independently of each other. *)
Definition mergePath (mo : gmap string (list GValue)) (mp : gmap string GValue)
  : gmap string (list GValue) :=
  if Nat.eqb (size mp) 0 then mo
  else
    merge (fun sl v =>
             match v with
             | Some v => Some (mergeTag sl v)
             | None => sl
             end) mo mp.

(** The map [mo] handed to [loadToValue] for one result. *)
Definition bindings (r : Result) : gmap string (list GValue) :=
  fold_left mergePath (paths r) ((fun v => [v]) <$> tags r).

(** The check of [loadToValue] on the required fields: some save rule that
    is not optional has no value under its name in [m]. *)
Definition requiredMissing (fields : gmap string rule)
  (m : gmap string (list GValue)) : bool :=
  existsb (fun nf =>
             match snd nf with
             | saveRule _ _ false =>
                 Nat.eqb (List.length (default [] (m !! fst nf))) 0
             | _ => false
             end) (map_to_list fields).

(** The second loop of [loadToValue], which fills the fields of [dst] from
    [m]: it reads node values from the store, converts them with
    [DefaultConverter] and loads nested records from iterators built by
    package [path]; none of the three is among the sources. It never returns
    [errRequiredFieldIsMissing]: a nested load that fails with it is skipped,
    every other error is passed on or wrapped. *)
Variable loadFields :
  GoType -> GoValue -> Z -> gmap string (list GValue) -> Res loadError GoValue.

(** [func (c *Config) loadToValue(ctx, qs, dst reflect.Value, depth int,
    m map[string][]graph.Value, tagPref string) error], for the rules
    [fields] that [loadIteratorToDepth] puts in the context. The filled
    destination is returned. *)
Definition loadToValue (fields : gmap string rule) (rt : GoType) (dst : GoValue)
  (depth : Z) (m : gmap string (list GValue)) : Res loadError GoValue :=
  if negb (isKind rt KindStruct) then Err ErrExpectedStruct
  else if negb (Z.eqb depth 0) && requiredMissing fields m
  then Err errRequiredFieldIsMissing
  else loadFields rt dst depth m.

(** Closing the channel, deferred by [loadIteratorToDepth]. *)
Definition closeChan (d : Destination) : Destination :=
  match d with
  | DstChan sent _ => DstChan sent true
  | _ => d
  end.

(** The loop [for it.Next(ctx)] of [loadIteratorToDepth] over the results
    the iterator still has, and what follows the loop. [ctxDone] tells
    whether the context is cancelled; [listInStore] is the outcome of the
    final probe of [list] against the nodes of the store. *)
Fixpoint loadLoop (ctxDone : bool) (fields : gmap string rule) (et : GoType)
  (depth : Z) (itErr listInStore : bool) (rs : list Result) (dst : Destination)
  : Res loadError unit * Destination :=
  match rs with
  | [] =>
      if itErr then (Err ErrIterator, dst)
      else
        match dst with
        | DstStruct _ =>
            if listInStore then (Err errRequiredFieldIsMissing, dst)
            else (Err errNotFound, dst)
        | _ => (Ok tt, dst)
        end
  | r :: rs' =>
      if ctxDone then (Err ErrContext, dst)
      else if Nat.eqb (size (tags r)) 0
      then loadLoop ctxDone fields et depth itErr listInStore rs' dst
      else
        let cur := match dst with DstStruct v => v | _ => zeroOf et end in
        match loadToValue fields et cur depth (bindings r) with
        | Err errRequiredFieldIsMissing =>
            match dst with
            | DstStruct _ => (Err errRequiredFieldIsMissing, dst)
            | _ => loadLoop ctxDone fields et depth itErr listInStore rs' dst
            end
        | Err e => (Err e, dst)
        | Panic => (Panic, dst)
        | Ok v =>
            match dst with
            | DstSlice l =>
                loadLoop ctxDone fields et depth itErr listInStore rs'
                  (DstSlice (l ++ [v]))
            | DstChan sent closed =>
                loadLoop ctxDone fields et depth itErr listInStore rs'
                  (DstChan (sent ++ [v]) closed)
            | DstStruct _ => (Ok tt, DstStruct v)
            end
        end
  end.

(** [func (c *Config) loadIteratorToDepth(ctx, qs, dst reflect.Value,
    depth int, list graph.Iterator) error]: [fields] is the outcome of
    [c.rulesFor(et)] and [it] the outcome of [c.iteratorForType]. *)
Definition loadIteratorToDepth {E : Type} (ctxDone : bool)
  (fields : Res E (gmap string rule)) (et : GoType) (depth : Z)
  (it : Res loadError Iterator) (listInStore : bool) (dst : Destination)
  : Res loadError unit * Destination :=
  match fields with
  | Err _ => (Err ErrRules, closeChan dst)
  | Panic => (Panic, closeChan dst)
  | Ok fields =>
      if ctxDone then (Err ErrContext, closeChan dst)
      else
        match it with
        | Err e => (Err e, closeChan dst)
        | Panic => (Panic, closeChan dst)
        | Ok it =>
            let '(r, d) :=
              loadLoop ctxDone fields et depth (itErr it) listInStore
                (results it) dst in
            (r, closeChan d)
        end
  end.

End Load.

Arguments keysEqual {GValue _ KeyT _} Key v1 v2.
Arguments mkResult {GValue} tags paths.
Arguments tags {GValue} r.
Arguments paths {GValue} r.
Arguments mkIterator {GValue} results itErr.
Arguments results {GValue} i.
Arguments itErr {GValue} i.
Arguments mergeTag {GValue _ KeyT _} Key sl v.
Arguments mergePath {GValue _ KeyT _} Key mo mp.
Arguments bindings {GValue _ KeyT _} Key r.
Arguments requiredMissing {GValue} fields m.
Arguments loadToValue {GValue} loadFields fields rt dst depth m.
Arguments loadLoop {GValue _ KeyT _} Key loadFields ctxDone fields et depth
  itErr listInStore rs dst.
Arguments loadIteratorToDepth {GValue _ KeyT _} Key loadFields {E} ctxDone
  fields et depth it listInStore dst.

(** ** The exported entry of the load *)

(** Go's [int], 64 bits wide, with its wrap-around. *)
Definition wrapInt (z : Z) : Z := ((z + 2 ^ 63) mod 2 ^ 64 - 2 ^ 63)%Z.

(** [func (c *Config) LoadIteratorToDepth(ctx, qs, dst reflect.Value,
    depth int, list graph.Iterator) error]: a depth that is not negative is
    incremented before [loadIteratorToDepth] is called. *)
Definition LoadIteratorToDepth {GValue : Type} `{EqDecision GValue}
  {KeyT : Type} `{EqDecision KeyT} (Key : GValue -> option KeyT)
  (loadFields :
     GoType -> GoValue -> Z -> gmap string (list GValue) -> Res loadError GoValue)
  {E : Type} (ctxDone : bool) (fields : Res E (gmap string rule)) (et : GoType)
  (depth : Z) (it : Res loadError (Iterator GValue)) (listInStore : bool)
  (dst : Destination) : Res loadError unit * Destination :=
  let depth := if (0 <=? depth)%Z then wrapInt (depth + 1) else depth in
  loadIteratorToDepth Key loadFields ctxDone fields et depth it listInStore dst.

(** ** The registry of types *)

(** [reflect.Type] values are compared with [==]. *)
Fixpoint GoType_eq_dec (a b : GoType) {struct a} : {a = b} + {a <> b}
with StructField_eq_dec (f g : StructField) {struct f} : {f = g} + {f <> g}.
Proof.
  - decide equality.
    + decide equality.
    + apply (List.list_eq_dec StructField_eq_dec).
    + apply string_dec.
  - decide equality.
    + apply bool_dec.
    + decide equality; apply string_dec.
    + apply string_dec.
Defined.

#[global] Instance GoType_EqDecision : EqDecision GoType := GoType_eq_dec.

(** The package variables [typeToIRI] and [iriToType], two Go maps. *)
Record Registry : Type := mkRegistry {
  typeToIRIMap : GoType -> option string;
  iriToTypeMap : gmap string GoType
}.

Definition emptyRegistry : Registry := mkRegistry (fun _ => None) ∅.

(** [typeToIRI[rt]] as [writeValueAs] and [makePathForType] read it: the zero
    value for a missing key. *)
Definition typeToIRIOf (reg : Registry) (rt : GoType) : string :=
  default "" (typeToIRIMap reg rt).

(** The argument [obj interface{}] of [RegisterType] when it is not nil: a
    [reflect.Type], or any other value with its dynamic type. *)
Inductive RegisterArg : Type :=
| ArgType (t : GoType)
| ArgValue (rv : RValue).

(** The type [RegisterType] registers for [obj]. *)
Definition typeOfArg (obj : RegisterArg) : GoType :=
  match obj with
  | ArgType t => t
  | ArgValue (t, _) => if isKind t KindPtr then derefType t else t
  end.

(** [func RegisterType(iri quad.IRI, obj interface{})], with [iri.Full()] as
    a parameter. [None] is a panic; the registry is then as it was. *)
Definition RegisterType (Full : string -> string) (iri_ : string)
  (obj : option RegisterArg) (reg : Registry) : option Registry :=
  let full := Full iri_ in
  match obj with
  | None =>
      let tp := iriToTypeMap reg !! full in
      Some (mkRegistry
              (fun t =>
                 match tp with
                 | Some tp => if decide (t = tp) then None else typeToIRIMap reg t
                 | None => typeToIRIMap reg t
                 end)
              (delete full (iriToTypeMap reg)))
  | Some obj =>
      let rt := typeOfArg obj in
      match typeToIRIMap reg rt with
      | Some _ => None
      | None =>
          match iriToTypeMap reg !! full with
          | Some _ => None
          | None =>
              Some (mkRegistry
                      (fun t => if decide (t = rt) then Some iri_
                                else typeToIRIMap reg t)
                      (<[full := rt]> (iriToTypeMap reg)))
          end
      end
  end.

(** The calls [RegisterType(iri, obj)] of a program, in order; the first
    panic ends it. *)
Fixpoint registerAll (Full : string -> string)
  (calls : list (string * option RegisterArg)) (reg : Registry)
  : option Registry :=
  match calls with
  | [] => Some reg
  | (iri_, obj) :: calls' =>
      match RegisterType Full iri_ obj reg with
      | Some reg' => registerAll Full calls' reg'
      | None => None
      end
  end.

(** ** Namespaces *)

(** [type namespace struct { _ struct{} `quad:"@type > cayley:namespace"`;
    Full quad.IRI `quad:"@id"`; Prefix quad.IRI `quad:"cayley:prefix"` }]. *)
Definition namespace : GoType :=
  TStruct "namespace"
    [ mkField "_" (TStruct "" []) (mkTag "@type > cayley:namespace" "") false;
      mkField "Full" (TQuad QIRI) (mkTag "@id" "") false;
      mkField "Prefix" (TQuad QIRI) (mkTag "cayley:prefix" "") false ].

(** [voc.Namespace], a prefix and the full form it stands for. *)
Record Namespace : Type := mkNamespace { nsPrefix : string; nsFull : string }.

Section Namespaces.

Context {World WErr : Type}.
Variable env : Env World WErr.
Variable c : Config World.

(** [func (c *Config) WriteNamespaces(w quad.Writer, n *voc.Namespaces)
    error], on the list [n.List()]. *)
Definition WriteNamespaces (list : list Namespace) : M (WErr:=WErr) unit :=
  match rulesFor env c namespace with
  | Panic => panic
  | Err e => fail (ErrCantLoadRules e)
  | Ok rules =>
      forEach list (fun ns =>
        writeValueAs env c (Some (IRI (nsFull ns))) namespace
          (VStruct [VStruct []; VQuad (IRI (nsFull ns)); VQuad (IRI (nsPrefix ns))])
          "" rules)
  end.

End Namespaces.

(** ** The path of a type *)

(** Modelled from the spec: a [path.Path] (package [path] is not among the
    sources) as "an immutable ordered sequence of morphism operators", one
    per builder call; [path.StartMorphism()] is the empty sequence. The nodes
    of [Has] are the IRIs the mapper passes. *)
Inductive Morphism : Type :=
| Has (pred : string) (nodes : list string)
| HasReverse (pred : string) (nodes : list string)
| TagOp (tag : string)
| Save (pred tag : string)
| SaveReverse (pred tag : string)
| SaveOptional (pred tag : string)
| SaveOptionalReverse (pred tag : string)
| Follow (p : list Morphism).

Definition Path : Type := list Morphism.

(** The errors of [makePathForType]: those of [fieldRule], and three
    [fmt.Errorf] values. *)
Inductive pathError (WErr : Type) : Type :=
| PathRule (e : error WErr)
| PathExpectedStruct
| PathArrayField
| PathUnsupportedField.

Arguments PathRule {WErr} e.
Arguments PathExpectedStruct {WErr}.
Arguments PathArrayField {WErr}.
Arguments PathUnsupportedField {WErr}.

(** [func checkFieldType(ftp reflect.Type) error]. *)
Fixpoint checkFieldType {WErr : Type} (ftp : GoType) : option (pathError WErr) :=
  match ftp with
  | TPtr e | TSlice e => checkFieldType e
  | TArray _ => Some PathArrayField
  | TFunc => Some PathUnsupportedField
  | _ => None
  end.

(** The caches [c.pathForType] and [c.pathForTypeRoot]. *)
Record PathCache : Type := mkPathCache {
  pathForType : GoType -> option Path;
  pathForTypeRoot : GoType -> option Path
}.

Definition emptyPathCache : PathCache :=
  mkPathCache (fun _ => None) (fun _ => None).

Definition cached (rootOnly : bool) (st : PathCache) (rt : GoType) : option Path :=
  if rootOnly then pathForTypeRoot st rt else pathForType st rt.

Definition store (rootOnly : bool) (st : PathCache) (rt : GoType) (p : Path)
  : PathCache :=
  if rootOnly then
    mkPathCache (pathForType st)
      (fun t => if decide (t = rt) then Some p else pathForTypeRoot st t)
  else
    mkPathCache
      (fun t => if decide (t = rt) then Some p else pathForType st t)
      (pathForTypeRoot st).

(** Whether an operator saves a value under a tag, at any depth of
    [Follow]. *)
Fixpoint savesOp (m : Morphism) : bool :=
  match m with
  | Save _ _ | SaveReverse _ _ | SaveOptional _ _ | SaveOptionalReverse _ _ => true
  | Follow p => existsb savesOp p
  | _ => false
  end.

Section PathForType.

Context {World WErr : Type}.
Variable env : Env World WErr.
Variable c : Config World.

(** The operators one field with the rule [r] adds to the path, the [switch]
    of [makePathForType]. *)
Definition ruleOps (r : rule) (tag : string) (rootOnly : bool) : Path :=
  match r with
  | idRule => [TagOp tag]
  | constraintRule p v rev =>
      let nodes := if String.eqb v "" then [] else [v] in
      if rev then [HasReverse p nodes] else [Has p nodes]
  | saveRule p rev opt =>
      if opt then
        if negb rootOnly then
          if rev then [SaveOptionalReverse p tag] else [SaveOptional p tag]
        else []
      else if rootOnly then
        if rev then [HasReverse p []] else [Has p []]
      else
        if rev then [SaveReverse p tag] else [Save p tag]
  end.

Section PathFields.

(** [c.makePathForType], as the loop over the fields calls it. *)
Variable makePath :
  GoType -> string -> bool -> PathCache -> Res (pathError WErr) Path * PathCache.

(** The loop [for i := 0; i < rt.NumField(); i++] of [makePathForType] over
    the fields [fs], from the path [p] built so far. *)
Fixpoint pathFieldsWith (tagPref : string) (rootOnly : bool)
  (fs : list StructField) (p : Path) (st : PathCache) {struct fs}
  : Res (pathError WErr) Path * PathCache :=
  match fs with
  | [] => (Ok p, st)
  | f :: fs' =>
      if Anonymous f then
        match makePath (Type_ f) (tagPref ++ Name f ++ ".")%string rootOnly st with
        | (Ok pa, st') => pathFieldsWith tagPref rootOnly fs' (p ++ [Follow pa]) st'
        | (r, st') => (r, st')
        end
      else
        match fieldRule env c f with
        | Err e => (Err (PathRule e), st)
        | Panic => (Panic, st)
        | Ok None => pathFieldsWith tagPref rootOnly fs' p st
        | Ok (Some r) =>
            match checkFieldType (derefType (Type_ f)) with
            | Some e => (Err e, st)
            | None =>
                pathFieldsWith tagPref rootOnly fs'
                  (p ++ ruleOps r (tagPref ++ Name f)%string rootOnly) st
            end
        end
  end.

End PathFields.

(** [func (c *Config) makePathForType(rt reflect.Type, tagPref string,
    rootOnly bool) ( *path.Path, error)], with the caches it reads and
    writes. *)
Fixpoint makePathForType (rt : GoType) (tagPref : string) (rootOnly : bool)
  (st : PathCache) {struct rt} : Res (pathError WErr) Path * PathCache :=
  match rt with
  | TPtr e => makePathForType e tagPref rootOnly st
  | TStruct _ fields =>
      match (if String.eqb tagPref "" then None else cached rootOnly st rt) with
      | Some p => (Ok p, st)
      | None =>
          let iri_ := typeToIRI env rt in
          let p0 : Path :=
            if negb (String.eqb iri_ "") then [Has (iri env c (iriType env)) [iri_]]
            else [] in
          match pathFieldsWith makePathForType tagPref rootOnly fields p0 st with
          | (Ok p, st') =>
              if String.eqb tagPref "" then (Ok p, st')
              else (Ok p, store rootOnly st' rt p)
          | (r, st') => (r, st')
          end
      end
  | _ => (Err PathExpectedStruct, st)
  end.

(** The loop of [makePathForType]. *)
Definition pathFields : string -> bool -> list StructField -> Path -> PathCache ->
  Res (pathError WErr) Path * PathCache :=
  pathFieldsWith makePathForType.

(** [func (c *Config) PathForType(rt reflect.Type) ( *path.Path, error)]. *)
Definition PathForType (rt : GoType) (st : PathCache)
  : Res (pathError WErr) Path * PathCache :=
  makePathForType rt "" false st.

End PathForType.


End Schema.

(** ** Package [nquads]: the driver of the scanner

    [Parse] is written around the machine [statement]; Ragel expands
    [%%write init] and [%%write exec] into the scanner over tables generated
    from [statement] and from the included grammar [nquads.rl]. The tables are
    not among the sources: they are a parameter here. The actions are those of
    the source; [%Return] is the leaving action of the machine, run when the
    input ends in a final state, and [@!Error] puts the error action on every
    state that is not final, run when such a state has no transition on the
    current rune or when the input ends there. *)

Module NQuads.

Import Quad.

(** A rune of [data := []rune(statement)]. *)
Definition rune : Type := N.

(** [unicode.MaxASCII]. *)
Definition MaxASCII : rune := 127%N.

(** The errors [Parse] returns: the package variables [quad.ErrInvalid] and
    [quad.ErrIncomplete], and the two [fmt.Errorf] values of the action
    [Error], which both start with [quad.ErrInvalid] and print the rune
    [data[p]] and the position [p]; the second one also prints the code
    point. *)
Inductive parseError : Type :=
| ErrInvalid
| ErrIncomplete
| ErrUnexpectedRune (r : rune) (p : nat) (withCodePoint : bool).

#[global] Instance parseError_eq_dec : EqDecision parseError.
Proof. solve_decision. Defined.

(** What a call of [Parse] ends with. *)
Inductive outcome : Type :=
| Returned (q : Quad) (err : option parseError)
| Panicked.

(** The embedded actions that do not return. *)
Inductive Action : Type :=
| Escape | Quote
| StartSubject | StartPredicate | StartObject | StartLabel
| Spec
| SetSubject | SetPredicate | SetObject | SetLabel
| Comment.

(** The variables of [Parse]. *)
Record Vars : Type := mkVars {
  subject : Z;
  predicate : Z;
  object : Z;
  label : Z;
  spec : Z;
  isEscaped : bool;
  isQuoted : bool;
  q : Quad
}.

Definition initVars : Vars :=
  mkVars (-1) (-1) (-1) (-1) (-1) false false (mkQuad None None None None).

(** [data[i:j]]. *)
Definition slice (data : list rune) (i j : nat) : list rune :=
  firstn (j - i) (skipn i data).

(** The generated scanner. [next cs r] is the transition of state [cs] on
    the rune [r] with the actions on it, [None] when there is none;
    [eofActions cs] are the leaving actions run when the input ends in the
    final state [cs], before [Return]. *)
Record Machine : Type := mkMachine {
  state : Type;
  start : state;
  final : state -> bool;
  next : state -> rune -> option (list Action * state);
  eofActions : state -> list Action
}.

Section Parse.

(** [unEscape], declared in another file of the package. *)
Variable unEscape : list rune -> Z -> bool -> bool -> Value.

Variable m : Machine.

(** One embedded action at position [p]. The four [Set] actions panic when
    the start of their term was never set. *)
Definition doAction (data : list rune) (p : nat) (a : Action) (v : Vars)
  : option Vars :=
  let set (start : Z) (upd : Value -> Quad) : option Vars :=
    if (start <? 0)%Z then None
    else
      Some (mkVars (subject v) (predicate v) (object v) (label v) (spec v)
              false false
              (upd (unEscape (slice data (Z.to_nat start) p)
                      (spec v - start)%Z (isQuoted v) (isEscaped v)))) in
  match a with
  | Escape =>
      Some (mkVars (subject v) (predicate v) (object v) (label v) (spec v)
              true (isQuoted v) (q v))
  | Quote =>
      Some (mkVars (subject v) (predicate v) (object v) (label v) (spec v)
              (isEscaped v) true (q v))
  | StartSubject =>
      Some (mkVars (Z.of_nat p) (predicate v) (object v) (label v) (spec v)
              (isEscaped v) (isQuoted v) (q v))
  | StartPredicate =>
      Some (mkVars (subject v) (Z.of_nat p) (object v) (label v) (spec v)
              (isEscaped v) (isQuoted v) (q v))
  | StartObject =>
      Some (mkVars (subject v) (predicate v) (Z.of_nat p) (label v) (spec v)
              (isEscaped v) (isQuoted v) (q v))
  | StartLabel =>
      Some (mkVars (subject v) (predicate v) (object v) (Z.of_nat p) (spec v)
              (isEscaped v) (isQuoted v) (q v))
  | Spec =>
      Some (mkVars (subject v) (predicate v) (object v) (label v) (Z.of_nat p)
              (isEscaped v) (isQuoted v) (q v))
  | SetSubject =>
      set (subject v) (fun x =>
        mkQuad x (Predicate (q v)) (Object (q v)) (Label (q v)))
  | SetPredicate =>
      set (predicate v) (fun x =>
        mkQuad (Subject (q v)) x (Object (q v)) (Label (q v)))
  | SetObject =>
      set (object v) (fun x =>
        mkQuad (Subject (q v)) (Predicate (q v)) x (Label (q v)))
  | SetLabel =>
      set (label v) (fun x =>
        mkQuad (Subject (q v)) (Predicate (q v)) (Object (q v)) x)
  | Comment => Some v
  end.

Fixpoint doActions (data : list rune) (p : nat) (acts : list Action) (v : Vars)
  : option Vars :=
  match acts with
  | [] => Some v
  | a :: acts' =>
      match doAction data p a v with
      | Some v' => doActions data p acts' v'
      | None => None
      end
  end.

(** [action Error]. *)
Definition actionError (data : list rune) (p : nat) (q : Quad) : outcome :=
  match nth_error data p with
  | Some r =>
      if (r <? MaxASCII)%N
      then Returned q (Some (ErrUnexpectedRune r p false))
      else Returned q (Some (ErrUnexpectedRune r p true))
  | None => Returned q (Some ErrIncomplete)
  end.

(** [action Return]. *)
Definition actionReturn (q : Quad) : outcome := Returned q None.

(** [%%write exec] followed by the last statement of [Parse]: the scanner in
    state [cs] at position [p], with [rest] the runes from [p] on. Leaving the
    loop without a [return] (no transition out of a final state) reaches
    [return quad.Quad{}, quad.ErrInvalid]. *)
Fixpoint exec (data : list rune) (rest : list rune) (p : nat) (cs : state m)
  (v : Vars) : outcome :=
  match rest with
  | [] =>
      if final m cs then
        match doActions data p (eofActions m cs) v with
        | Some v' => actionReturn (q v')
        | None => Panicked
        end
      else actionError data p (q v)
  | r :: rest' =>
      match next m cs r with
      | Some (acts, cs') =>
          match doActions data p acts v with
          | Some v' => exec data rest' (S p) cs' v'
          | None => Panicked
          end
      | None =>
          if final m cs then Returned (mkQuad None None None None) (Some ErrInvalid)
          else actionError data p (q v)
      end
  end.

(** Where the scanner stops, its actions left aside: at the end of the
    input in some state, or in a state that has no transition on the rune at
    some position. *)
Inductive ScanEnd : Type :=
| AtEOF (cs : state m)
| Stuck (cs : state m) (p : nat) (r : rune).

Fixpoint scan (rest : list rune) (p : nat) (cs : state m) : ScanEnd :=
  match rest with
  | [] => AtEOF cs
  | r :: rest' =>
      match next m cs r with
      | Some (_, cs') => scan rest' (S p) cs'
      | None => Stuck cs p r
      end
  end.

(** [func Parse(statement string) (quad.Quad, error)], on the runes of
    [statement]. *)
Definition Parse (data : list rune) : outcome :=
  exec data data 0 (start m) initVars.

End Parse.

Arguments AtEOF {m} cs.
Arguments Stuck {m} cs p r.

(** The runes of a string of ASCII characters. *)
Definition runes (s : string) : list rune :=
  List.map N_of_ascii (list_ascii_of_string s).

(** An instance of the tables, for statements whose terms are IRI references
    without escapes: it follows [statement] with [whitespace] a space or a
    tab and [IRIREF] a [<], runes other than controls, space, the angle
    brackets, the double quote, the braces, the bar, the caret, the backquote
    and the backslash, and a [>]. The entering actions sit on the transition
    into a term, the leaving actions on the transition out of it. *)
Inductive IRIState : Type :=
| Start | InSubject | EndSubject
| BeforePredicate | InPredicate | EndPredicate
| BeforeObject | InObject | EndObject | AfterObject
| InLabel | EndLabel | AfterLabel
| Done | InComment.

Definition isWhitespace (r : rune) : bool := (r =? 32)%N || (r =? 9)%N.

Definition isIRIChar (r : rune) : bool :=
  (32 <? r)%N
  && negb (existsb (N.eqb r) [60; 62; 34; 123; 125; 124; 94; 96; 92]%N).

Definition iriNext (cs : IRIState) (r : rune) : option (list Action * IRIState) :=
  let lt := (r =? 60)%N in
  let gt := (r =? 62)%N in
  let dot := (r =? 46)%N in
  let ws := isWhitespace r in
  let inTerm (here after : IRIState) :=
    if gt then Some ([], after)
    else if isIRIChar r then Some ([], here) else None in
  match cs with
  | Start =>
      if ws then Some ([], Start)
      else if lt then Some ([StartSubject], InSubject) else None
  | InSubject => inTerm InSubject EndSubject
  | EndSubject => if ws then Some ([SetSubject], BeforePredicate) else None
  | BeforePredicate =>
      if ws then Some ([], BeforePredicate)
      else if lt then Some ([StartPredicate], InPredicate) else None
  | InPredicate => inTerm InPredicate EndPredicate
  | EndPredicate => if ws then Some ([SetPredicate], BeforeObject) else None
  | BeforeObject =>
      if ws then Some ([], BeforeObject)
      else if lt then Some ([StartObject], InObject) else None
  | InObject => inTerm InObject EndObject
  | EndObject =>
      if ws then Some ([SetObject], AfterObject)
      else if dot then Some ([SetObject], Done) else None
  | AfterObject =>
      if ws then Some ([], AfterObject)
      else if lt then Some ([StartLabel], InLabel)
      else if dot then Some ([], Done) else None
  | InLabel => inTerm InLabel EndLabel
  | EndLabel =>
      if ws then Some ([SetLabel], AfterLabel)
      else if dot then Some ([SetLabel], Done) else None
  | AfterLabel =>
      if ws then Some ([], AfterLabel)
      else if dot then Some ([], Done) else None
  | Done =>
      if ws then Some ([], Done)
      else if (r =? 35)%N then Some ([Comment], InComment) else None
  | InComment => Some ([], InComment)
  end.

Definition iriMachine : Machine :=
  {| state := IRIState;
     start := Start;
     final := fun cs => match cs with Done | InComment => true | _ => false end;
     next := iriNext;
     eofActions := fun _ => [] |}.

(** A stand-in for [unEscape] on IRI references: the IRI between the angle
    brackets. *)
Definition unEscapeIRI (term : list rune) (spec : Z) (isQuoted isEscaped : bool)
  : Value :=
  Some (IRI (string_of_list_ascii
               (List.map ascii_of_N (removelast (tl term))))).

End NQuads.

(** ** Package [iterator]: the contract exercised by [TestCount]

    The implementations of [Fixed], [And] and [Count] are in files that are
    not among the sources; [TestCount] is. *)

Module Iterator.

Import Quad.

(** Modelled from the spec: the [NodeRef] of the data model, which the
    iterator sources would declare: either the [PreFetched] wrapper around a
    value or an opaque handle of the store. Key equality is equality of
    these. *)
Inductive NodeRef : Type :=
| PreFetched (v : QValue)
| Handle (n : N).

#[global] Instance NodeRef_eq_dec : EqDecision NodeRef.
Proof. solve_decision. Defined.

(** Modelled from the spec: the iterator variants of section 4.1 that
    [TestCount] builds, each with the tag names its [Tagger] holds. [And] is
    the conjunction of two children, as [NewAnd(nil, fixed, fixed2)] builds
    it. *)
Inductive Iter : Type :=
| Fixed (tags : list string) (vs : list NodeRef)
| And (tags : list string) (a b : Iter)
| Count (tags : list string) (sub : Iter).

(** Modelled from the spec: the size estimate of [Stats], by which [And]
    picks its primary child. *)
Fixpoint sizeHint (it : Iter) : nat :=
  match it with
  | Fixed _ vs => List.length vs
  | And _ a b => Nat.min (sizeHint a) (sizeHint b)
  | Count _ _ => 1
  end.

(** Modelled from the spec: [Contains] ("[Fixed]: membership via
    key-equality", "[Count]: contains only that value", "[And]:
    intersection") and the results successive [Advance]s emit from the
    initial state ("[Fixed]: exactly the given NodeRef set", "[And]: picks a
    primary child (smallest estimated size); iterates it and contains-checks
    the others", "[Count]: emits exactly one result: Int(|child|)", the
    cardinality being the number of results the child materializes). *)
Fixpoint emitted (it : Iter) : list NodeRef :=
  match it with
  | Fixed _ vs => vs
  | And _ a b =>
      if Nat.ltb (sizeHint b) (sizeHint a)
      then List.filter (contains a) (emitted b)
      else List.filter (contains b) (emitted a)
  | Count _ sub => [PreFetched (Int (Z.of_nat (List.length (emitted sub))))]
  end
with contains (it : Iter) (x : NodeRef) : bool :=
  match it with
  | Fixed _ vs => existsb (fun v => bool_decide (v = x)) vs
  | And _ a b => contains a x && contains b x
  | Count _ sub =>
      bool_decide (x = PreFetched (Int (Z.of_nat (List.length (emitted sub)))))
  end.

(** The tag names of the iterator itself. *)
Definition tagsOf (it : Iter) : list string :=
  match it with
  | Fixed tags _ | And tags _ _ | Count tags _ => tags
  end.

(** Modelled from the spec: [Tagger().Add(name)], "attach additional tag
    names to this iterator's current-result position". *)
Definition addTag (name : string) (it : Iter) : Iter :=
  match it with
  | Fixed tags vs => Fixed (tags ++ [name]) vs
  | And tags a b => And (tags ++ [name]) a b
  | Count tags sub => Count (tags ++ [name]) sub
  end.

(** Binds every name of [names] to [x] in [m]. *)
Definition bindAll (names : list string) (x : NodeRef)
  (m : gmap string NodeRef) : gmap string NodeRef :=
  fold_left (fun m name => <[name := x]> m) names m.

(** Modelled from the spec: the bindings [TagResults] copies into the
    caller's map when the current result is [x]: the iterator's own tags, and
    for a conjunction the tags of both children, which stand on the same
    result. The child of a [Count] is drained and contributes nothing. *)
Fixpoint tagResults (it : Iter) (x : NodeRef) (m : gmap string NodeRef)
  : gmap string NodeRef :=
  match it with
  | Fixed tags _ => bindAll tags x m
  | And tags a b => tagResults b x (tagResults a x (bindAll tags x m))
  | Count tags _ => bindAll tags x m
  end.

(** The tag names [tagResults] binds. *)
Fixpoint boundTags (it : Iter) : list string :=
  match it with
  | Fixed tags _ => tags
  | And tags a b => tags ++ boundTags a ++ boundTags b
  | Count tags _ => tags
  end.

(** Modelled from the spec: an iterator in use, "a stateful lazy set
    generator": the tree, the results still to come, and the current result
    ("exactly one current result at a time after a successful advance"). *)
Record Cursor : Type := mkCursor {
  tree : Iter;
  pending : list NodeRef;
  current : option NodeRef
}.

(** A new iterator, and [Reset]: "restart from initial state". *)
Definition new (it : Iter) : Cursor := mkCursor it (emitted it) None.
Definition Reset (c : Cursor) : Cursor := new (tree c).

(** [Next], the Advance of the contract: "returns success/failure and on
    success sets a retrievable current result". *)
Definition Next (c : Cursor) : bool * Cursor :=
  match pending c with
  | x :: rest => (true, mkCursor (tree c) rest (Some x))
  | [] => (false, mkCursor (tree c) [] None)
  end.

(** [Result]: "read the current NodeRef". *)
Definition Result (c : Cursor) : option NodeRef := current c.

(** [Contains]: "membership test for a given NodeRef without advancing; may
    reposition internal state". *)
Definition Contains (c : Cursor) (x : NodeRef) : bool * Cursor :=
  if contains (tree c) x then (true, mkCursor (tree c) (pending c) (Some x))
  else (false, c).

(** [TagResults(map)]: "copy the current tag to NodeRef bindings into the
    caller's map". *)
Definition TagResults (c : Cursor) (m : gmap string NodeRef) : gmap string NodeRef :=
  match current c with
  | Some x => tagResults (tree c) x m
  | None => m
  end.

(** [Tagger().Add(name)] on an iterator in use. *)
Definition TaggerAdd (name : string) (c : Cursor) : Cursor :=
  mkCursor (addTag name (tree c)) (pending c) (current c).

(** The values of [TestCount]. *)
Definition str (s : string) : NodeRef := PreFetched (String_ s).
Definition int (n : Z) : NodeRef := PreFetched (Int n).

Definition fixed : Iter := Fixed [] [str "a"; str "b"; str "c"; str "d"; str "e"].
Definition fixed2 : Iter := Fixed [] [str "b"; str "d"].

End Iterator.

(** ** Values used in examples *)

Module Fixtures.

Import Quad.
Import Schema.

(** A world for examples: the quads written so far and a counter from which
    blank nodes are drawn. *)
Definition World : Type := (list Quad * nat)%type.

Fixpoint nodeLabel (n : nat) : string :=
  match n with
  | 0 => "n"
  | S k => String "x"%char (nodeLabel k)
  end.

(** A stand-in for [quad.AsValue] on the values of the examples: quad values
    as they are, native strings, integers and booleans wrapped, [nil] as
    [nil], everything else refused. *)
Definition asValue (o : Dyn) : Value * bool :=
  match o with
  | None => (None, true)
  | Some (TQuad _, VQuad q) => (Some q, true)
  | Some (TString, VString s) => (Some (String_ s), true)
  | Some (TInt, VInt n) => (Some (Int n), true)
  | Some (TBool, VBool b) => (Some (Bool b), true)
  | _ => (None, false)
  end.

(** The writer appends to the log and never fails; the type [Person] is
    registered under [ex:Person]; IRIs have no known prefix. *)
Definition env : Env World string :=
  {| Short := fun s => s;
     Full := fun s => s;
     rdf_Type := "rdf:type";
     AsValue := asValue;
     RandomBlankNode := fun w => (Some (BNode (nodeLabel (snd w))), (fst w, S (snd w)));
     GenerateID_pkg := None;
     typeToIRI := fun t =>
       match t with
       | TStruct "Person" _ => "ex:Person"
       | _ => ""
       end;
     WriteQuad := fun q w => (None, ((fst w ++ [q])%list, snd w)) |}.

Definition conf : Config World :=
  {| IRIs := IRINative; GenerateID := None; Label := None |}.

Definition field (name : string) (t : GoType) (quadTag : string) : StructField :=
  mkField name t (mkTag quadTag "") false.

(** [type Person struct { ID quad.IRI `quad:"@id"`; Name string
    `quad:"name"`; Follows []quad.IRI `quad:"follows"` }], scenario C of the
    spec. *)
Definition Person : GoType :=
  TStruct "Person"
    [ field "ID" (TQuad QIRI) "@id";
      field "Name" TString "name";
      field "Follows" (TSlice (TQuad QIRI)) "follows" ].

Definition alice : GoValue :=
  VStruct [ VQuad (IRI "alice"); VString "Alice";
            VSlice [VQuad (IRI "bob"); VQuad (IRI "carol")] ].


(** [type Item struct { Name string `quad:"name"` }]: no identity field, not
    registered. *)
Definition Item : GoType := TStruct "Item" [ field "Name" TString "name" ].
Definition item : GoValue := VStruct [ VString "pen" ].


(** [type Tagged struct { ID quad.IRI `quad:"@id"`; Tags []string
    `quad:"tag,required"` }] with no tag. *)
Definition Tagged : GoType :=
  TStruct "Tagged"
    [ field "ID" (TQuad QIRI) "@id";
      field "Tags" (TSlice TString) "tag,required" ].
Definition untagged : GoValue := VStruct [ VQuad (IRI "t"); VNil ].

(** The world before anything is written. *)
Definition w0 : World := ([], 0).



(** The rules of [Person]. *)
Definition personRules : gmap string rule :=
  match rulesFor (WErr:=string) env conf Person with
  | Ok r => r
  | _ => ∅
  end.

(** Results of an iterator over node references that are numbers without a
    [Key] method: the first binds the identity only, the second binds the
    name as well and has two more paths. [fill] stands for the filling of the
    fields. *)
Definition noKey (v : nat) : option nat := None.

Definition onlyID : Result nat := mkResult {["ID" := 1]} [].

Definition named : Result nat :=
  mkResult {["ID" := 2; "Name" := 3]}
    [ {["ID" := 2; "Follows" := 4]}; {["ID" := 2; "Follows" := 5]} ].

Definition fill (rt : GoType) (dst : GoValue) (depth : Z)
  (m : gmap string (list nat)) : Res loadError GoValue :=
  Ok (VStruct [VInt (Z.of_nat (size m))]).

(** [type Broken struct { ID quad.IRI `quad:"@id"`; X string
    `quad:"a > b > c"` }]: the second annotation has one separator too
    many. *)
Definition Broken : GoType :=
  TStruct "Broken" [ field "ID" (TQuad QIRI) "@id"; field "X" TString "a > b > c" ].

(** [type Bare struct { X string `quad:"-"`; Y int }]: no field has a rule. *)
Definition Bare : GoType :=
  TStruct "Bare" [ field "X" TString "-"; mkField "Y" TInt (mkTag "" "") false ].

(** [type Outer struct { *Item }] holding a pointer to [item]. *)
Definition Outer : GoType :=
  TStruct "Outer" [ mkField "Item" (TPtr Item) (mkTag "" "") true ].
Definition outer : GoValue := VStruct [ VPtr item ].

(** [type Numbered struct { ID int `quad:"@id"`; Name string
    `quad:"name"` }]: an identity field of a type [idFor] does not take. *)
Definition Numbered : GoType :=
  TStruct "Numbered" [ field "ID" TInt "@id"; field "Name" TString "name" ].
Definition numbered : GoValue := VStruct [ VInt 7; VString "seven" ].

(** [type Nested struct { Item }] and [type Twice struct { Nested; Item }]:
    [Item] is embedded at two depths. *)
Definition Nested : GoType :=
  TStruct "Nested" [ mkField "Item" Item (mkTag "" "") true ].
Definition Twice : GoType :=
  TStruct "Twice"
    [ mkField "Nested" Nested (mkTag "" "") true;
      mkField "Item" Item (mkTag "" "") true ].

(** The environment [env] with a writer that refuses every quad. *)
Definition refusing : Env World string :=
  {| Short := Short env;
     Full := Full env;
     rdf_Type := rdf_Type env;
     AsValue := AsValue env;
     RandomBlankNode := RandomBlankNode env;
     GenerateID_pkg := GenerateID_pkg env;
     typeToIRI := typeToIRI env;
     WriteQuad := fun q w => (Some "refused", w) |}.



End Fixtures.

(** * Properties *)

(** ** The facade *)

Module HandleFacts.

Import Handle.

(** C9. [Handle.Close] calls [Close] on the writer first and on the store
    second, the store being closed in the world the writer's [Close] left, and
    it returns the error of the writer's [Close], whatever the store's
    [Close] returns. On the handle whose components log their calls, the log
    grows by the writer's entry followed by the store's entry. *)
Theorem Close_writer_then_store :
  (forall (World error : Type) (h : Handle World error) (w : World),
      Close h w =
        (fst (QuadWriter_Close (hQuadWriter h) w),
         snd (QuadStore_Close (hQuadStore h)
                (snd (QuadWriter_Close (hQuadWriter h) w))))) /\
  (forall (World error : Type) (wc sc : World -> option error * World)
          (w : World) (log : list CloseEvent),
      Close (loggedHandle wc sc) (w, log) =
        (fst (wc w),
         (snd (sc (snd (wc w))), log ++ [WriterClosed; StoreClosed]))).
Proof.
  split.
  - intros World error h w. unfold Close.
    destruct (QuadWriter_Close (hQuadWriter h) w) as [err w1]. cbn.
    destruct (QuadStore_Close (hQuadStore h) w1) as [e2 w2]. reflexivity.
  - intros World error wc sc w log. unfold Close, loggedHandle, logged. cbn.
    destruct (wc w) as [err w1]. cbn.
    destruct (sc w1) as [e2 w2]. cbn.
    rewrite <- app_assoc. reflexivity.
Qed.

End HandleFacts.

(** ** The field rules *)

Module RuleFacts.

Import GoStrings.
Import Quad.
Import Schema.

(** *** Splitting and trimming *)

Section StringLemmas.

#[local] Arguments String.append !s1 s2 : simpl nomatch.


Lemma Contains_app (a b : string) (sep : ascii) :
  Contains (a ++ b) sep = Contains a sep || Contains b sep.
Proof.
  induction a as [|ch a IH]; cbn; [reflexivity |].
  rewrite IH. now rewrite orb_assoc.
Qed.

Lemma Split_no_sep (s : string) (sep : ascii) :
  Contains s sep = false -> Split s sep = [s].
Proof.
  induction s as [|ch s IH]; cbn; [reflexivity |].
  intros H. apply orb_false_iff in H as [Hc Hs].
  rewrite Hc, (IH Hs). reflexivity.
Qed.

Lemma SplitN_no_sep (s : string) (sep : ascii) (n : nat) :
  Contains s sep = false -> SplitN s sep (S (S n)) = [s].
Proof.
  induction s as [|ch s IH]; cbn; [reflexivity |].
  intros H. apply orb_false_iff in H as [Hc Hs].
  rewrite Hc. cbn in IH. rewrite (IH Hs). reflexivity.
Qed.

Lemma SplitN_at_sep (a b : string) (sep : ascii) (n : nat) :
  Contains a sep = false ->
  SplitN (a ++ String sep b) sep (S (S n)) = a :: SplitN b sep (S n).
Proof.
  induction a as [|ch a IH]; cbn.
  - intros _. now rewrite Ascii.eqb_refl.
  - intros H. apply orb_false_iff in H as [Hc Hs].
    rewrite Hc. cbn in IH. rewrite (IH Hs). reflexivity.
Qed.





End StringLemmas.

Section Optionality.

#[local] Arguments String.append !s1 s2 : simpl nomatch.

Context {World WErr : Type}.
Variable env : Env World WErr.
Variable c : Config World.

Lemma Split_at_sep (a b : string) (sep : ascii) :
  Contains a sep = false -> Split (a ++ String sep b) sep = a :: Split b sep.
Proof.
  induction a as [|ch a IH]; cbn.
  - intros _. now rewrite Ascii.eqb_refl.
  - intros H. apply orb_false_iff in H as [Hc Hs].
    rewrite Hc, (IH Hs). reflexivity.
Qed.

(** [strings.Split] undoes the joining of items that hold no separator. *)
Lemma Split_concat (sep : ascii) (x : string) (xs : list string) :
  List.Forall (fun s => Contains s sep = false) (x :: xs) ->
  Split (String.concat (String sep "") (x :: xs)) sep = x :: xs.
Proof.
  revert x. induction xs as [|y xs IH]; intros x H.
  - cbn. apply Split_no_sep. now inversion H.
  - inversion H as [|? ? Hx Hrest]; subst.
    change (String.concat (String sep "") (x :: y :: xs))
      with (x ++ String sep (String.concat (String sep "") (y :: xs)))%string.
    rewrite (Split_at_sep _ _ _ Hx). now rewrite (IH y Hrest).
Qed.

Lemma hasReq_In (sub : list string) :
  hasReq sub = true <-> In "required" sub \/ In "req" sub.
Proof.
  unfold hasReq. rewrite existsb_exists. split.
  - intros (s & Hin & Hs). apply orb_true_iff in Hs as [Hs | Hs];
      apply String.eqb_eq in Hs; subst; auto.
  - intros [H | H]; eexists; (split; [exact H | reflexivity]).
Qed.

Lemma hasOpt_In (sub : list string) :
  hasOpt sub = true <-> In "optional" sub \/ In "opt" sub.
Proof.
  unfold hasOpt. rewrite existsb_exists. split.
  - intros (s & Hin & Hs). apply orb_true_iff in Hs as [Hs | Hs];
      apply String.eqb_eq in Hs; subst; auto.
  - intros [H | H]; eexists; (split; [exact H | reflexivity]).
Qed.

(** The flag of a save rule, by the two scans of the modifiers. *)
Lemma fieldRule_opt_flag (fld : StructField) (p : string) (rev opt : bool) :
  fieldRule env c fld = Ok (Some (saveRule p rev opt)) ->
  opt = (if hasReq (tl (Split (tagQuad (Tag fld)) comma)) then false
         else if hasOpt (tl (Split (tagQuad (Tag fld)) comma)) then true
         else isKind (Type_ fld) KindSlice).
Proof.
  unfold fieldRule.
  set (sub := tl (Split (tagQuad (Tag fld)) comma)).
  intros H.
  repeat case_match; simplify_eq; try reflexivity.
Qed.

(** C6. Let the [quad] tag of a field be the items [first], [m1], ..., [mn]
    joined by commas, none of which holds a comma; the modifiers are the
    items after the first. When [fieldRule] gives a save rule for the field:
    the rule is required ([Opt] false) if a modifier is [required] (or its
    short form [req]), whatever the other modifiers; otherwise it is optional
    ([Opt] true) if a modifier is [optional] (or [opt]); otherwise it is
    optional exactly when the type of the field is a slice. Modifiers are
    compared as they stand, without trimming. *)
Theorem fieldRule_optionality (fld : StructField) (first : string)
  (mods : list string) (p : string) (rev opt : bool) :
  tagQuad (Tag fld) = String.concat "," (first :: mods) ->
  List.Forall (fun s => Contains s comma = false) (first :: mods) ->
  fieldRule env c fld = Ok (Some (saveRule p rev opt)) ->
  (In "required" mods \/ In "req" mods -> opt = false) /\
  (~ (In "required" mods \/ In "req" mods) ->
   In "optional" mods \/ In "opt" mods -> opt = true) /\
  (~ (In "required" mods \/ In "req" mods) ->
   ~ (In "optional" mods \/ In "opt" mods) ->
   opt = match Type_ fld with TSlice _ => true | _ => false end).
Proof.
  intros Htag Hitems H. apply fieldRule_opt_flag in H.
  rewrite Htag in H. change "," with (String comma "") in H.
  rewrite (Split_concat comma first mods Hitems) in H. cbn [tl] in H.
  repeat split.
  - intros Hreq. apply hasReq_In in Hreq. now rewrite Hreq in H.
  - intros Hnreq Hopt.
    destruct (hasReq mods) eqn:Er; [exfalso; now apply Hnreq, hasReq_In |].
    apply hasOpt_In in Hopt. now rewrite Hopt in H.
  - intros Hnreq Hnopt.
    destruct (hasReq mods) eqn:Er; [exfalso; now apply Hnreq, hasReq_In |].
    destruct (hasOpt mods) eqn:Eo; [exfalso; now apply Hnopt, hasOpt_In |].
    rewrite H. now destruct (Type_ fld) as [| | | [] | | | | | | |].
Qed.

End Optionality.

(** The two modifiers together on a slice, [req] on a slice, [optional] and
    [opt] on a scalar, and the two defaults: the rules [fieldRule] gives for
    the six fields, then the flag the theorem gives for each of them. *)
Lemma fieldRule_optionality_witness :
  (fieldRule (WErr:=string) Fixtures.env Fixtures.conf
     (Fixtures.field "Tags" (TSlice TString) "tag,optional,required")
   = Ok (Some (saveRule "tag" false false)) /\
   fieldRule (WErr:=string) Fixtures.env Fixtures.conf
     (Fixtures.field "Tags" (TSlice TString) "tag,req")
   = Ok (Some (saveRule "tag" false false))) /\
  (fieldRule (WErr:=string) Fixtures.env Fixtures.conf
     (Fixtures.field "Nick" TString "nick,optional")
   = Ok (Some (saveRule "nick" false true)) /\
   fieldRule (WErr:=string) Fixtures.env Fixtures.conf
     (Fixtures.field "Nick" TString "nick,opt")
   = Ok (Some (saveRule "nick" false true))) /\
  (fieldRule (WErr:=string) Fixtures.env Fixtures.conf
     (Fixtures.field "Follows" (TSlice (TQuad QIRI)) "follows")
   = Ok (Some (saveRule "follows" false true)) /\
   fieldRule (WErr:=string) Fixtures.env Fixtures.conf
     (Fixtures.field "Name" TString "name")
   = Ok (Some (saveRule "name" false false))) /\
  (false = false /\ false = false) /\ (true = true /\ true = true) /\
  (true = match TSlice (TQuad QIRI) with TSlice _ => true | _ => false end /\
   false = match TString with TSlice _ => true | _ => false end).
Proof.
  split; [split; reflexivity |]. split; [split; reflexivity |].
  split; [split; reflexivity |].
  split; [| split]; split.
  - apply (proj1 (fieldRule_optionality (WErr:=string) Fixtures.env Fixtures.conf
                    (Fixtures.field "Tags" (TSlice TString) "tag,optional,required")
                    "tag" ["optional"; "required"] "tag" false false
                    eq_refl ltac:(repeat constructor) eq_refl)).
    left. right. now left.
  - apply (proj1 (fieldRule_optionality (WErr:=string) Fixtures.env Fixtures.conf
                    (Fixtures.field "Tags" (TSlice TString) "tag,req")
                    "tag" ["req"] "tag" false false
                    eq_refl ltac:(repeat constructor) eq_refl)).
    right. now left.
  - apply (proj1 (proj2 (fieldRule_optionality (WErr:=string) Fixtures.env
                           Fixtures.conf
                           (Fixtures.field "Nick" TString "nick,optional")
                           "nick" ["optional"] "nick" false true
                           eq_refl ltac:(repeat constructor) eq_refl))).
    + cbn. intuition discriminate.
    + left. now left.
  - apply (proj1 (proj2 (fieldRule_optionality (WErr:=string) Fixtures.env
                           Fixtures.conf
                           (Fixtures.field "Nick" TString "nick,opt")
                           "nick" ["opt"] "nick" false true
                           eq_refl ltac:(repeat constructor) eq_refl))).
    + cbn. intuition discriminate.
    + right. now left.
  - apply (proj2 (proj2 (fieldRule_optionality (WErr:=string) Fixtures.env
                           Fixtures.conf
                           (Fixtures.field "Follows" (TSlice (TQuad QIRI)) "follows")
                           "follows" [] "follows" false true
                           eq_refl ltac:(repeat constructor) eq_refl)));
      cbn; intuition.
  - apply (proj2 (proj2 (fieldRule_optionality (WErr:=string) Fixtures.env
                           Fixtures.conf
                           (Fixtures.field "Name" TString "name")
                           "name" [] "name" false false
                           eq_refl ltac:(repeat constructor) eq_refl)));
      cbn; intuition.
Defined.

(** *** The forms of an annotation *)

Section Forms.

Context {World WErr : Type}.
Variable env : Env World WErr.
Variable c : Config World.






End Forms.



End RuleFacts.

(** ** Writing *)

Module WriteFacts.

Import GoStrings.
Import Quad.
Import Schema.

Section Write.

Context {World WErr : Type}.
Variable env : Env World WErr.
Variable c : Config World.

(** C10. When the object handed to [WriteAsQuads] is a quad value, that value
    is returned as the identifier, without error, and the world, the writer's
    state included, is left as it was: nothing is written. *)
Theorem WriteAsQuads_of_quad_value (o : Dyn) (v : QValue) (w : World) :
  asQuadValue o = Some v ->
  WriteAsQuads env c o w = (Ok (Some v), w).
Proof.
  intros H. unfold WriteAsQuads.
  destruct o as [[rt rv]|]; [| discriminate].
  unfold WriteAsQuadsWith. rewrite H. reflexivity.
Qed.


Lemma writeValueAs_struct (id : Value) (name : string) (fields : list StructField)
  (rv : GoValue) (pref : string) (rules : gmap string rule) (w : World) :
  writeValueAs env c id (TStruct name fields) rv pref rules w =
  bind (if negb (String.eqb (typeToIRI env (TStruct name fields)) "")
        then writeQuad env (typeQuad env c id (typeToIRI env (TStruct name fields)))
        else ret tt)
       (fun _ => writeFields env c id rv pref rules fields 0) w.
Proof. reflexivity. Qed.


Lemma idForFirst_found (rules : gmap string rule) (pre post : list StructField)
  (f : StructField) (rv : GoValue) (pref : string) (i : nat) (b : bool) :
  Forall (fun g => rules !! (pref ++ Name g)%string <> Some idRule) pre ->
  rules !! (pref ++ Name f)%string = Some idRule ->
  idForFirst env c rules (pre ++ f :: post) rv pref i b =
  match Field rv (List.length pre + i) with
  | Some fv => inl (idOfField env c (Interface (Type_ f, fv)))
  | None => inl Panic
  end.
Proof.
  intros Hpre Hf. revert i b.
  induction Hpre as [|g pre Hg Hpre IH]; intros i b; cbn [app idForFirst List.length].
  - rewrite Hf. reflexivity.
  - destruct (rules !! (pref ++ Name g)%string) as [[]|] eqn:E;
      try (rewrite IH, Nat.add_succ_r; reflexivity).
    congruence.
Qed.









End Write.

(** The IRI [alice] handed to a writer that holds one quad already. *)
Lemma WriteAsQuads_of_quad_value_witness :
  asQuadValue (Some (TQuad QIRI, VQuad (IRI "alice"))) = Some (IRI "alice") /\
  WriteAsQuads Fixtures.env Fixtures.conf (Some (TQuad QIRI, VQuad (IRI "alice")))
    ([mkQuad (Some (IRI "s")) (Some (IRI "p")) (Some (IRI "o")) None], 0)
  = (Ok (Some (IRI "alice")),
     ([mkQuad (Some (IRI "s")) (Some (IRI "p")) (Some (IRI "o")) None], 0)).
Proof.
  split; [reflexivity |].
  apply (WriteAsQuads_of_quad_value Fixtures.env Fixtures.conf). reflexivity.
Defined.






(** A slice is never tested against its zero value by [writeValueAs]: a
    record whose required slice is nil is written without error. *)
Example WriteAsQuads_required_slice_unchecked :
  fieldRule Fixtures.env Fixtures.conf
    (Fixtures.field "Tags" (TSlice TString) "tag,required")
  = Ok (Some (saveRule "tag" false false)) /\
  WriteAsQuads Fixtures.env Fixtures.conf
    (Some (Fixtures.Tagged, Fixtures.untagged)) Fixtures.w0
  = (Ok (Some (IRI "t")), Fixtures.w0).
Proof. split; reflexivity. Qed.

(** An identity field that holds the empty IRI is still the identity: no
    generator is called. *)
Example WriteAsQuads_empty_identity_field :
  WriteAsQuads Fixtures.env Fixtures.conf
    (Some (Fixtures.Person, VStruct [VQuad (IRI ""); VString "Alice"; VSlice []]))
    Fixtures.w0
  = (Ok (Some (IRI "")),
     ([ mkQuad (Some (IRI "")) (Some (IRI "rdf:type")) (Some (IRI "ex:Person")) None;
        mkQuad (Some (IRI "")) (Some (IRI "name")) (Some (String_ "Alice")) None ],
      0)).
Proof. reflexivity. Qed.

(** A record without identity field draws its identifier from the generator,
    here [quad.RandomBlankNode]. *)
Example WriteAsQuads_generated_identity :
  WriteAsQuads Fixtures.env Fixtures.conf (Some (Fixtures.Item, Fixtures.item)) Fixtures.w0
  = (Ok (Some (BNode "n")),
     ([mkQuad (Some (BNode "n")) (Some (IRI "name")) (Some (String_ "pen")) None], 1)).
Proof. reflexivity. Qed.

End WriteFacts.

(** ** Loading *)

Module LoadFacts.

Import Quad.
Import Schema.

Section Load.

Context {GValue : Type} `{EqDecision GValue} {KeyT : Type} `{EqDecision KeyT}.
Variable Key : GValue -> option KeyT.
Variable loadFields :
  GoType -> GoValue -> Z -> gmap string (list GValue) -> Res loadError GoValue.

Lemma requiredMissing_intro (fields : gmap string rule)
  (m : gmap string (list GValue)) (name p : string) (rev : bool) :
  fields !! name = Some (saveRule p rev false) ->
  default [] (m !! name) = [] ->
  requiredMissing fields m = true.
Proof.
  intros Hf Hm. unfold requiredMissing. apply existsb_exists.
  exists (name, saveRule p rev false). split.
  - apply list_elem_of_In, elem_of_map_to_list. exact Hf.
  - cbn. rewrite Hm. reflexivity.
Qed.

Lemma loadToValue_required (fields : gmap string rule) (et : GoType)
  (cur : GoValue) (depth : Z) (m : gmap string (list GValue))
  (name p : string) (rev : bool) :
  isKind et KindStruct = true -> depth <> 0%Z ->
  fields !! name = Some (saveRule p rev false) ->
  default [] (m !! name) = [] ->
  loadToValue loadFields fields et cur depth m = Err errRequiredFieldIsMissing.
Proof.
  intros Hk Hd Hf Hm. unfold loadToValue. rewrite Hk. cbn [negb].
  apply Z.eqb_neq in Hd. rewrite Hd. cbn [negb andb].
  now rewrite (requiredMissing_intro fields m name p rev Hf Hm).
Qed.

(** C7. In the loop of [loadIteratorToDepth], with a live context, let the
    next result have tag bindings, the depth limit not be reached, and some
    save rule that is not optional have no value bound under its field's name
    (so that [loadToValue] fails with [errRequiredFieldIsMissing]). If the
    destination is a single record, the load returns
    [errRequiredFieldIsMissing] and leaves the destination as it was; if it
    is a slice or a channel, the result is skipped, nothing being appended or
    sent, and the load goes on with the remaining results. The same holds for
    [loadIteratorToDepth] when that result is the first the iterator gives. *)
Theorem load_required_field_missing (fields : gmap string rule) (et : GoType)
  (depth : Z) (itErr listInStore : bool) (r : Result GValue)
  (rs : list (Result GValue)) (name p : string) (rev : bool) :
  isKind et KindStruct = true -> depth <> 0%Z ->
  size (tags r) <> 0 ->
  fields !! name = Some (saveRule p rev false) ->
  default [] (bindings Key r !! name) = [] ->
  (forall v,
      loadLoop Key loadFields false fields et depth itErr listInStore (r :: rs)
        (DstStruct v)
      = (Err errRequiredFieldIsMissing, DstStruct v) /\
      loadIteratorToDepth (E:=unit) Key loadFields false (Ok fields) et depth
        (Ok (mkIterator (r :: rs) itErr)) listInStore (DstStruct v)
      = (Err errRequiredFieldIsMissing, DstStruct v)) /\
  (forall dst,
      (exists l, dst = DstSlice l) \/ (exists sent closed, dst = DstChan sent closed) ->
      loadLoop Key loadFields false fields et depth itErr listInStore (r :: rs) dst
      = loadLoop Key loadFields false fields et depth itErr listInStore rs dst /\
      loadIteratorToDepth (E:=unit) Key loadFields false (Ok fields) et depth
        (Ok (mkIterator (r :: rs) itErr)) listInStore dst
      = loadIteratorToDepth (E:=unit) Key loadFields false (Ok fields) et depth
          (Ok (mkIterator rs itErr)) listInStore dst).
Proof.
  intros Hk Hd Hs Hf Hm.
  assert (Hstep : forall cur,
             loadToValue loadFields fields et cur depth (bindings Key r)
             = Err errRequiredFieldIsMissing).
  { intros cur. now apply (loadToValue_required fields et cur depth _ name p rev). }
  apply Nat.eqb_neq in Hs.
  split.
  - intros v.
    assert (Hl : loadLoop Key loadFields false fields et depth itErr
                   listInStore (r :: rs) (DstStruct v)
                 = (Err errRequiredFieldIsMissing, DstStruct v)).
    { cbn [loadLoop]. rewrite Hs, Hstep. reflexivity. }
    split; [exact Hl |].
    unfold loadIteratorToDepth. cbn [results Schema.itErr]. rewrite Hl. reflexivity.
  - intros dst Hdst.
    assert (Hl : loadLoop Key loadFields false fields et depth itErr
                   listInStore (r :: rs) dst
                 = loadLoop Key loadFields false fields et depth itErr
                     listInStore rs dst).
    { cbn [loadLoop]. rewrite Hs, Hstep.
      destruct Hdst as [[l ->] | (sent & closed & ->)]; reflexivity. }
    split; [exact Hl |].
    unfold loadIteratorToDepth. cbn [results Schema.itErr]. rewrite Hl. reflexivity.
Qed.

End Load.

(** Loading [Person]s from the results [onlyID] and [named]: the first has no
    name bound and is skipped by a slice, refused by a single record. *)
Lemma load_required_field_missing_witness :
  (forall v,
      loadLoop Fixtures.noKey Fixtures.fill false Fixtures.personRules
        Fixtures.Person (-1) false false [Fixtures.onlyID; Fixtures.named]
        (DstStruct v)
      = (Err errRequiredFieldIsMissing, DstStruct v) /\
      loadIteratorToDepth (E:=unit) Fixtures.noKey Fixtures.fill false
        (Ok Fixtures.personRules) Fixtures.Person (-1)
        (Ok (mkIterator [Fixtures.onlyID; Fixtures.named] false)) false (DstStruct v)
      = (Err errRequiredFieldIsMissing, DstStruct v)) /\
  (forall dst,
      (exists l, dst = DstSlice l) \/ (exists sent closed, dst = DstChan sent closed) ->
      loadLoop Fixtures.noKey Fixtures.fill false Fixtures.personRules
        Fixtures.Person (-1) false false [Fixtures.onlyID; Fixtures.named] dst
      = loadLoop Fixtures.noKey Fixtures.fill false Fixtures.personRules
          Fixtures.Person (-1) false false [Fixtures.named] dst /\
      loadIteratorToDepth (E:=unit) Fixtures.noKey Fixtures.fill false
        (Ok Fixtures.personRules) Fixtures.Person (-1)
        (Ok (mkIterator [Fixtures.onlyID; Fixtures.named] false)) false dst
      = loadIteratorToDepth (E:=unit) Fixtures.noKey Fixtures.fill false
          (Ok Fixtures.personRules) Fixtures.Person (-1)
          (Ok (mkIterator [Fixtures.named] false)) false dst).
Proof.
  apply (load_required_field_missing Fixtures.noKey Fixtures.fill
           Fixtures.personRules Fixtures.Person (-1) false false
           Fixtures.onlyID [Fixtures.named] "Name" "name" false).
  - reflexivity.
  - discriminate.
  - vm_compute. discriminate.
  - reflexivity.
  - reflexivity.
Defined.

(** The whole load of the two results into an empty slice keeps the second
    record only. *)
Example load_into_slice_skips :
  loadIteratorToDepth (E:=unit) Fixtures.noKey Fixtures.fill false
    (Ok Fixtures.personRules) Fixtures.Person (-1)
    (Ok (mkIterator [Fixtures.onlyID; Fixtures.named] false)) false (DstSlice [])
  = (Ok tt, DstSlice [VStruct [VInt 3]]).
Proof. reflexivity. Qed.

End LoadFacts.

(** ** The iterators of [TestCount] *)

Module IteratorFacts.

Import Quad.
Import Iterator.

Lemma contains_emitted (it : Iter) (x : NodeRef) :
  contains it x = true <-> In x (emitted it).
Proof.
  revert x. induction it as [tags vs | tags a IHa b IHb | tags sub IH]; intros x.
  - cbn [contains emitted]. rewrite existsb_exists. split.
    + intros (v & Hv & He). apply bool_decide_eq_true in He. now subst.
    + intros Hx. exists x. split; [assumption | now apply bool_decide_eq_true].
  - cbn [contains emitted]. rewrite andb_true_iff, IHa, IHb.
    destruct (Nat.ltb (sizeHint b) (sizeHint a)); rewrite filter_In.
    + rewrite IHa. tauto.
    + rewrite IHb. tauto.
  - cbn [contains emitted]. rewrite bool_decide_eq_true. cbn. split.
    + intros ->. now left.
    + intros [<- | []]. reflexivity.
Qed.

Lemma bindAll_lookup (names : list string) (x : NodeRef)
  (m : gmap string NodeRef) (t : string) :
  bindAll names x m !! t = if bool_decide (t ∈ names) then Some x else m !! t.
Proof.
  unfold bindAll. revert m.
  induction names as [|n names IH]; intros m; cbn [fold_left].
  - reflexivity.
  - rewrite IH. destruct (decide (n = t)) as [-> | Hne].
    + rewrite lookup_insert_eq.
      rewrite (bool_decide_eq_true_2 (t ∈ t :: names)) by (apply elem_of_cons; now left).
      now destruct (bool_decide (t ∈ names)).
    + rewrite lookup_insert_ne by assumption.
      destruct (bool_decide (t ∈ names)) eqn:E.
      * apply bool_decide_eq_true in E.
        now rewrite (bool_decide_eq_true_2 (t ∈ n :: names))
          by (apply elem_of_cons; now right).
      * apply bool_decide_eq_false in E.
        rewrite (bool_decide_eq_false_2 (t ∈ n :: names)); [reflexivity |].
        intros [? | ?]%elem_of_cons; congruence.
Qed.

Lemma tagResults_lookup (it : Iter) (x : NodeRef) (m : gmap string NodeRef)
  (t : string) :
  tagResults it x m !! t
  = if bool_decide (t ∈ boundTags it) then Some x else m !! t.
Proof.
  revert m. induction it as [tags vs | tags a IHa b IHb | tags sub IH]; intros m;
    cbn [tagResults boundTags].
  - apply bindAll_lookup.
  - rewrite IHb, IHa, bindAll_lookup.
    destruct (bool_decide (t ∈ boundTags b)) eqn:Eb;
      destruct (bool_decide (t ∈ boundTags a)) eqn:Ea;
      destruct (bool_decide (t ∈ tags)) eqn:Et;
      destruct (bool_decide (t ∈ (tags ++ boundTags a ++ boundTags b)%list)) eqn:E;
      try reflexivity; exfalso;
      repeat match goal with
             | h : bool_decide _ = true |- _ => apply bool_decide_eq_true in h
             | h : bool_decide _ = false |- _ => apply bool_decide_eq_false in h
             end; rewrite ?elem_of_app in *; tauto.
  - apply bindAll_lookup.
Qed.

Lemma tagResults_child (it : Iter) (x : NodeRef) (t : string) (v : NodeRef) :
  tagResults it x ∅ !! t = Some v -> t ∈ boundTags it /\ v = x.
Proof.
  rewrite tagResults_lookup. case_bool_decide; [| now rewrite lookup_empty].
  intros [= ->]. now split.
Qed.

(** C2, on the iterators modelled from the spec. The conjunction of two
    iterators emits exactly the results both children emit, and contains
    exactly those; it emits no duplicate when the children emit none; and
    every tag a child binds for a result is bound, to the same node, in the
    bindings of the conjunction for that result, whatever the caller's map
    held. As in [TestCount], [Count] over the conjunction of [fixed] and
    [fixed2] emits [Int(2)] and then fails to advance, contains [Int(2)] and
    not [Int(5)], and after [Reset] and [Tagger().Add("count")] the harvested
    map is exactly [count] bound to [Int(2)]. *)
Theorem And_emits_intersection (tags : list string) (a b : Iter) :
  (forall x, In x (emitted (And tags a b)) <-> In x (emitted a) /\ In x (emitted b)) /\
  (forall x, fst (Contains (new (And tags a b)) x) = true
             <-> In x (emitted a) /\ In x (emitted b)) /\
  (List.NoDup (emitted a) -> List.NoDup (emitted b) ->
   List.NoDup (emitted (And tags a b))) /\
  (forall (x : NodeRef) (m : gmap string NodeRef) (t : string) (v : NodeRef),
      tagResults a x ∅ !! t = Some v \/ tagResults b x ∅ !! t = Some v ->
      tagResults (And tags a b) x m !! t = Some v) /\
  (let c := new (Count [] (And [] fixed fixed2)) in
   fst (Next c) = true /\
   Result (snd (Next c)) = Some (int 2) /\
   fst (Next (snd (Next c))) = false /\
   fst (Contains (snd (Next (snd (Next c)))) (int 5)) = false /\
   fst (Contains (snd (Next (snd (Next c)))) (int 2)) = true /\
   TagResults (snd (Next (TaggerAdd "count" (Reset c)))) ∅ = {["count" := int 2]}).
Proof.
  assert (Hmem : forall x, In x (emitted (And tags a b))
                           <-> In x (emitted a) /\ In x (emitted b)).
  { intros x. rewrite <- (contains_emitted (And tags a b)). cbn [contains].
    now rewrite andb_true_iff, !contains_emitted. }
  split; [exact Hmem |]. split; [| split; [| split]].
  - intros x. unfold Contains, new. cbn [tree].
    rewrite <- Hmem, <- contains_emitted.
    destruct (contains (And tags a b) x); cbn; split; congruence.
  - intros Ha Hb. cbn [emitted].
    destruct (Nat.ltb (sizeHint b) (sizeHint a)); now apply List.NoDup_filter.
  - intros x m t v H. rewrite tagResults_lookup. cbn [boundTags].
    assert (t ∈ (boundTags a ++ boundTags b)%list /\ v = x) as [Hin ->].
    { destruct H as [H | H]; apply tagResults_child in H as [Hin ->];
        (split; [| reflexivity]); apply elem_of_app; auto. }
    rewrite bool_decide_eq_true_2; [reflexivity |].
    apply elem_of_app. now right.
  - vm_compute. repeat split; reflexivity.
Qed.

(** C1, on the iterators modelled from the spec. [Count] over any iterator
    advances once, to the result [Int(n)] where [n] is the number of results
    the child emits, then fails to advance and has no current result; before
    and after the advance it contains [Int(n)] and nothing else. As in
    [TestCount], [Count] over the five strings of [fixed] emits [Int(5)],
    then fails to advance, contains [Int(5)] and does not contain [Int(3)]. *)
Theorem Count_emits_cardinality (tags : list string) (it : Iter) :
  (let c := new (Count tags it) in
   let n := int (Z.of_nat (List.length (emitted it))) in
   fst (Next c) = true /\
   Result (snd (Next c)) = Some n /\
   fst (Next (snd (Next c))) = false /\
   Result (snd (Next (snd (Next c)))) = None /\
   (forall x, fst (Contains c x) = true <-> x = n) /\
   (forall x, fst (Contains (snd (Next c)) x) = true <-> x = n)) /\
  (let c := new (Count [] fixed) in
   fst (Next c) = true /\
   Result (snd (Next c)) = Some (int 5) /\
   fst (Next (snd (Next c))) = false /\
   fst (Contains (snd (Next (snd (Next c)))) (int 5)) = true /\
   fst (Contains (snd (Next (snd (Next c)))) (int 3)) = false).
Proof.
  split.
  - assert (Hc : forall x, contains (Count tags it) x = true
                           <-> x = int (Z.of_nat (List.length (emitted it)))).
    { intros x. cbn [contains]. apply bool_decide_eq_true. }
    cbn zeta. unfold new, Next, Result, Contains.
    cbn [emitted pending tree current fst snd].
    do 4 (split; [reflexivity |]).
    split; intros x; rewrite <- Hc;
      destruct (contains (Count tags it) x); cbn; split; congruence.
  - vm_compute. repeat split; reflexivity.
Qed.

(** The conjunction of the two fixed sets of [TestCount]. *)
Lemma And_emits_intersection_witness :
  emitted (And [] fixed fixed2) = [str "b"; str "d"] /\
  (In (str "b") (emitted (And [] fixed fixed2))
   <-> In (str "b") (emitted fixed) /\ In (str "b") (emitted fixed2)).
Proof.
  split; [reflexivity |].
  apply (proj1 (And_emits_intersection [] fixed fixed2)).
Defined.

(** The count of the conjunction of the two fixed sets. *)
Lemma Count_emits_cardinality_witness :
  Result (snd (Next (new (Count [] (And [] fixed fixed2))))) = Some (int 2).
Proof.
  apply (proj1 (Count_emits_cardinality [] (And [] fixed fixed2))).
Defined.

End IteratorFacts.

(** ** The N-Quads scanner *)

Module NQuadsFacts.

Import Quad.
Import NQuads.

Section Parse.

Variable unEscape : list rune -> Z -> bool -> bool -> Value.
Variable m : Machine.

Lemma skipn_cons_nth (data : list rune) (p : nat) (r : rune) (rest : list rune) :
  skipn p data = r :: rest ->
  nth_error data p = Some r /\ skipn (S p) data = rest.
Proof.
  revert data. induction p as [|p IH]; intros [|x data] H; try discriminate.
  - cbn in H. inversion H; subst. split; reflexivity.
  - cbn [skipn] in H. apply IH in H as [H1 H2]. split; assumption.
Qed.

Lemma skipn_nil_nth (data : list rune) (p : nat) :
  skipn p data = [] -> nth_error data p = None.
Proof.
  revert data. induction p as [|p IH]; intros [|x data] H; try discriminate;
    try reflexivity.
  cbn [skipn] in H. cbn. now apply IH.
Qed.

Lemma actionError_at (data : list rune) (p : nat) (r : rune) (q0 : Quad) :
  nth_error data p = Some r ->
  actionError data p q0
  = Returned q0 (Some (ErrUnexpectedRune r p (negb (r <? MaxASCII)%N))).
Proof.
  intros H. unfold actionError. rewrite H. now destruct (r <? MaxASCII)%N.
Qed.

Lemma actionError_eof (data : list rune) (p : nat) (q0 : Quad) :
  nth_error data p = None ->
  actionError data p q0 = Returned q0 (Some ErrIncomplete).
Proof. intros H. unfold actionError. now rewrite H. Qed.

(** The outcome of the scanner from any position on. *)
Lemma exec_ends (data rest : list rune) (p : nat) (cs : state m) (v : Vars) :
  skipn p data = rest ->
  exec unEscape m data rest p cs v = Panicked \/
  match scan m rest p cs with
  | AtEOF cs' =>
      if final m cs'
      then exists q0, exec unEscape m data rest p cs v = Returned q0 None
      else exists q0,
          exec unEscape m data rest p cs v = Returned q0 (Some ErrIncomplete)
  | Stuck cs' p' r =>
      nth_error data p' = Some r /\
      if final m cs'
      then exec unEscape m data rest p cs v
           = Returned (mkQuad None None None None) (Some ErrInvalid)
      else exists q0,
          exec unEscape m data rest p cs v
          = Returned q0 (Some (ErrUnexpectedRune r p' (negb (r <? MaxASCII)%N)))
  end.
Proof.
  revert p cs v. induction rest as [|r rest IH]; intros p cs v Hs;
    cbn [scan exec].
  - destruct (final m cs).
    + destruct (doActions _ _ _ _ _); [right; eexists; reflexivity | now left].
    + right. eexists. apply actionError_eof. now apply skipn_nil_nth.
  - apply skipn_cons_nth in Hs as [Hn Hs].
    destruct (next m cs r) as [[acts cs']|].
    + destruct (doActions _ _ _ _ _); [| now left]. now apply IH.
    + right. split; [assumption |].
      destruct (final m cs); [reflexivity |].
      eexists. now apply actionError_at.
Qed.


End Parse.



(** The other outcomes on the same tables. *)
Example Parse_complete_statement :
  Parse unEscapeIRI iriMachine (runes "<a> <b> <c> . # done")
  = Returned (mkQuad (Some (IRI "a")) (Some (IRI "b")) (Some (IRI "c")) None) None.
Proof. reflexivity. Qed.

Example Parse_incomplete_statement :
  Parse unEscapeIRI iriMachine (runes "<a> <b>")
  = Returned (mkQuad (Some (IRI "a")) None None None) (Some ErrIncomplete).
Proof. reflexivity. Qed.

End NQuadsFacts.

(** * Further properties of the code *)

(** ** Field rules *)

Module RuleMore.

Import GoStrings.
Import Quad.
Import Schema.

Import RuleFacts.

Section Strings.
#[local] Arguments String.append !s1 s2 : simpl nomatch.

Lemma Contains_TrimLeft (s : string) (cut b : ascii) :
  Ascii.eqb cut b = false -> Contains (TrimLeft s cut) b = Contains s b.
Proof.
  intros H. induction s as [|ch s IH]; cbn; [reflexivity |].
  destruct (Ascii.eqb ch cut) eqn:E; [| reflexivity].
  apply Ascii.eqb_eq in E. subst ch. now rewrite H, IH.
Qed.

Lemma Contains_TrimRight (s : string) (cut b : ascii) :
  Ascii.eqb cut b = false -> Contains (TrimRight s cut) b = Contains s b.
Proof.
  intros H. induction s as [|ch s IH]; cbn; [reflexivity |].
  destruct (TrimRight s cut) eqn:Et.
  - cbn in IH. rewrite <- IH.
    destruct (Ascii.eqb ch cut) eqn:E; cbn.
    + apply Ascii.eqb_eq in E. subst ch. now rewrite H.
    + now rewrite orb_false_r.
  - cbn [Contains]. now rewrite <- IH.
Qed.

Lemma Contains_Trim (s : string) (cut b : ascii) :
  Ascii.eqb cut b = false -> Contains (Trim s cut) b = Contains s b.
Proof.
  intros H. unfold Trim. now rewrite Contains_TrimRight, Contains_TrimLeft.
Qed.
End Strings.

Section R.
Context {World WErr : Type}.
Variable env : Env World WErr.
Variable c : Config World.

(** X1. Whenever [fieldRule] gives a save rule or a constraint rule, the rule
    is a reverse one exactly when the first comma-separated item of the
    [quad] tag contains the byte [<]. A rule taken from the [json] tag is
    never a reverse rule. *)
Theorem fieldRule_reverse_mark (fld : StructField) (r : rule) :
  fieldRule env c fld = Ok (Some r) ->
  match r with
  | saveRule _ rev _ | constraintRule _ _ rev =>
      rev = Contains (hd "" (Split (tagQuad (Tag fld)) comma)) ops
  | idRule => True
  end.
Proof.
  unfold fieldRule.
  rewrite <- (Contains_Trim (hd "" (Split (tagQuad (Tag fld)) comma)) trim ops eq_refl).
  set (first := Trim (hd "" (Split (tagQuad (Tag fld)) comma)) trim).
  destruct (String.eqb first "") eqn:Ef.
  - apply String.eqb_eq in Ef. rewrite Ef. cbn [Contains].
    intros H. repeat case_match; simplify_eq; try exact I; try reflexivity.
  - rewrite (Contains_Trim first trim ops eq_refl).
    intros H. repeat case_match; simplify_eq; try exact I; try reflexivity.
Qed.

(** X2. A field without [quad] annotation whose [json] name contains [<]
    makes [fieldRule] panic: the name is taken whole as the only part, so
    [tri[1]] is out of range. The [json] name is neither empty nor [-], and
    not [@id] once trimmed. *)
Theorem fieldRule_json_reverse_panics (fld : StructField) :
  Trim (hd "" (Split (tagQuad (Tag fld)) comma)) trim = "" ->
  let name := hd "" (SplitN (tagJSON (Tag fld)) comma 2) in
  String.eqb name "" = false -> String.eqb name none = false ->
  String.eqb (Trim name trim) this = false ->
  Contains name ops = true ->
  fieldRule env c fld = Panic.
Proof.
  intros Hq name Hn Hm Hi Ho. unfold fieldRule. rewrite Hq. cbn [String.eqb].
  fold name. rewrite Hn, Hm. cbn [orb]. rewrite Hi.
  rewrite (Contains_Trim name trim ops eq_refl), Ho. reflexivity.
Qed.


Lemma fieldRule_single_item (fld : StructField) (t : string) :
  tagQuad (Tag fld) = t -> Contains t comma = false -> Trim t trim = t ->
  String.eqb t "" = false -> String.eqb t none = false ->
  String.eqb t this = false ->
  fieldRule env c fld =
  let rev := Contains t ops in
  let tri : Res (error WErr) (list string) :=
    if rev then
      if negb (Nat.eqb (List.length (SplitN t ops 3)) 2)
      then Err (ErrWrongTagFormat t) else Ok (SplitN t ops 3)
    else
      if Nat.ltb 2 (List.length (SplitN t spo 3))
      then Err (ErrWrongTagFormat t) else Ok (SplitN t spo 3) in
  match tri with
  | Err e => Err e
  | Panic => Panic
  | Ok tri =>
      let psvs : Res (error WErr) (string * string) :=
        if rev then
          match index (WErr:=WErr) tri 0, index (WErr:=WErr) tri 1 with
          | Ok a, Ok b => Ok (Trim a trim, Trim b trim)
          | _, _ => Panic
          end
        else
          match index (WErr:=WErr) tri 0 with
          | Ok a =>
              if Nat.ltb 1 (List.length tri) then
                match index (WErr:=WErr) tri 1 with
                | Ok b => Ok (Trim a trim, Trim b trim)
                | _ => Panic
                end
              else Ok (Trim a trim, any)
          | _ => Panic
          end in
      match psvs with
      | Err e => Err e
      | Panic => Panic
      | Ok (ps, vs) =>
          if String.eqb ps "" then Err (ErrNoPredicate t)
          else
            if String.eqb vs ""
               || (String.eqb vs any && negb (isReflEmptyStruct (Type_ fld)))
            then Ok (Some (saveRule (toIRI env c ps) rev (isKind (Type_ fld) KindSlice)))
            else Ok (Some (constraintRule (toIRI env c ps) (toIRI env c vs) rev))
      end
  end.
Proof.
  intros Ht Hc Htr He Hn Hi. unfold fieldRule. rewrite Ht.
  rewrite (Split_no_sep t comma Hc). cbn [hd tl]. rewrite Htr, He.
  cbv beta iota zeta. rewrite He, Hn. cbn [orb]. rewrite Htr, Hi.
  cbn [hasOpt hasReq existsb].
  destruct (isKind (Type_ fld) KindSlice); reflexivity.
Qed.

Lemma SplitN_three (a b d : string) (sep : ascii) :
  Contains a sep = false -> Contains b sep = false ->
  SplitN (a ++ String sep (b ++ String sep d)) sep 3 = [a; b; d].
Proof.
  intros Ha Hb. rewrite SplitN_at_sep by assumption.
  rewrite SplitN_at_sep by assumption. now destruct d.
Qed.

(** X3. The annotations [fieldRule] refuses, for a [quad] tag [t] without
    comma and without space at either end: with two separators [<], or with
    no [<] and two separators [>], the error is the one on the format of the
    tag; with nothing before the first separator, the error is the one on
    the missing predicate. Both carry the annotation. *)
Theorem fieldRule_malformed (fld : StructField) (t a b d : string) :
  tagQuad (Tag fld) = t -> Contains t comma = false -> Trim t trim = t ->
  (t = (a ++ String ops (b ++ String ops d))%string ->
   Contains a ops = false -> Contains b ops = false ->
   fieldRule env c fld = Err (ErrWrongTagFormat t)) /\
  (t = (a ++ String spo (b ++ String spo d))%string ->
   Contains t ops = false -> Contains a spo = false -> Contains b spo = false ->
   fieldRule env c fld = Err (ErrWrongTagFormat t)) /\
  (t = String ops b -> Contains b ops = false ->
   fieldRule env c fld = Err (ErrNoPredicate t)) /\
  (t = String spo b -> Contains b ops = false -> Contains b spo = false ->
   fieldRule env c fld = Err (ErrNoPredicate t)).
Proof.
  intros Ht Hc Htr.
  assert (Hgen : forall sep, Contains t sep = true ->
                   Contains "" sep = false -> Contains none sep = false ->
                   Contains this sep = false ->
                   String.eqb t "" = false /\ String.eqb t none = false /\
                   String.eqb t this = false).
  { intros sep H1 H2 H3 H4. repeat split; apply String.eqb_neq; intros E;
      rewrite E in H1; congruence. }
  repeat split.
  - intros E Ha Hb.
    assert (Ho : Contains t ops = true).
    { rewrite E, Contains_app. cbn. apply orb_true_r. }
    destruct (Hgen ops Ho eq_refl eq_refl eq_refl) as (He & Hn & Hi).
    rewrite (fieldRule_single_item fld t Ht Hc Htr He Hn Hi).
    cbv zeta. rewrite Ho. rewrite E at 1. rewrite (SplitN_three a b d ops Ha Hb).
    reflexivity.
  - intros E Ho Ha Hb.
    assert (Hs : Contains t spo = true).
    { rewrite E, Contains_app. cbn. apply orb_true_r. }
    destruct (Hgen spo Hs eq_refl eq_refl eq_refl) as (He & Hn & Hi).
    rewrite (fieldRule_single_item fld t Ht Hc Htr He Hn Hi).
    cbv zeta. rewrite Ho. rewrite E at 1. rewrite (SplitN_three a b d spo Ha Hb).
    reflexivity.
  - intros E Hb.
    assert (Ho : Contains t ops = true) by (rewrite E; reflexivity).
    destruct (Hgen ops Ho eq_refl eq_refl eq_refl) as (He & Hn & Hi).
    rewrite (fieldRule_single_item fld t Ht Hc Htr He Hn Hi).
    cbv zeta. rewrite Ho.
    assert (Hsp : SplitN t ops 3 = [""; b]).
    { rewrite E. change (String ops b) with ("" ++ String ops b)%string.
      rewrite SplitN_at_sep by reflexivity. now rewrite SplitN_no_sep. }
    rewrite Hsp. reflexivity.
  - intros E Ho Hb.
    assert (Hs : Contains t spo = true) by (rewrite E; reflexivity).
    destruct (Hgen spo Hs eq_refl eq_refl eq_refl) as (He & Hn & Hi).
    rewrite (fieldRule_single_item fld t Ht Hc Htr He Hn Hi).
    cbv zeta.
    assert (Ho' : Contains t ops = false) by (rewrite E; exact Ho).
    rewrite Ho'.
    assert (Hsp : SplitN t spo 3 = [""; b]).
    { rewrite E. change (String spo b) with ("" ++ String spo b)%string.
      rewrite SplitN_at_sep by reflexivity. now rewrite SplitN_no_sep. }
    rewrite Hsp. reflexivity.
Qed.

(** X4. [fieldRule] gives no rule and no error exactly when the first item
    of the [quad] tag, trimmed of spaces, is [-], or when that item is empty
    and the name in the [json] tag is empty or [-]. The [json] name is not
    trimmed before the test. *)
Theorem fieldRule_no_rule_iff (fld : StructField) :
  fieldRule env c fld = Ok None <->
  (Trim (hd "" (Split (tagQuad (Tag fld)) comma)) trim = none \/
   Trim (hd "" (Split (tagQuad (Tag fld)) comma)) trim = "" /\
   (hd "" (SplitN (tagJSON (Tag fld)) comma 2) = "" \/
    hd "" (SplitN (tagJSON (Tag fld)) comma 2) = none)).
Proof.
  split.
  - unfold fieldRule.
    set (first := Trim (hd "" (Split (tagQuad (Tag fld)) comma)) trim).
    set (name := hd "" (SplitN (tagJSON (Tag fld)) comma 2)).
    destruct (String.eqb first "") eqn:Ef.
    + apply String.eqb_eq in Ef. intros H. right. split; [assumption |].
      destruct (String.eqb name "") eqn:E1; [left; now apply String.eqb_eq |].
      destruct (String.eqb name none) eqn:E2; [right; now apply String.eqb_eq |].
      exfalso. cbn [orb] in H. repeat case_match; simplify_eq.
    + intros H. left. rewrite Ef in H. cbn [orb] in H.
      destruct (String.eqb first none) eqn:E2; [now apply String.eqb_eq |].
      exfalso. repeat case_match; simplify_eq.
  - intros [H | [H [H' | H']]]; unfold fieldRule; rewrite H; cbn [String.eqb];
      try rewrite H'; reflexivity.
Qed.
End R.

(** The annotation [follows < *,optional]. *)
Lemma fieldRule_reverse_mark_witness :
  true = Contains (hd "" (Split "follows < *,optional" comma)) ops.
Proof.
  exact (fieldRule_reverse_mark Fixtures.env Fixtures.conf
           (Fixtures.field "F" (TQuad QIRI) "follows < *,optional")
           (saveRule "follows" true true) eq_refl).
Defined.

(** The field [J string `json:"a<b"`]. *)
Lemma fieldRule_json_reverse_panics_witness :
  fieldRule (WErr:=string) Fixtures.env Fixtures.conf
    (mkField "J" TString (mkTag "" "a<b") false) = Panic.
Proof.
  apply (fieldRule_json_reverse_panics Fixtures.env Fixtures.conf
           (mkField "J" TString (mkTag "" "a<b") false)); reflexivity.
Defined.

(** The annotations [a < b < c] and [> b]. *)
Lemma fieldRule_malformed_witness :
  fieldRule (WErr:=string) Fixtures.env Fixtures.conf
    (Fixtures.field "X" TString "a < b < c") = Err (ErrWrongTagFormat "a < b < c") /\
  fieldRule (WErr:=string) Fixtures.env Fixtures.conf
    (Fixtures.field "X" TString "> b") = Err (ErrNoPredicate "> b").
Proof.
  split.
  - apply (proj1 (fieldRule_malformed Fixtures.env Fixtures.conf
                    (Fixtures.field "X" TString "a < b < c")
                    "a < b < c" "a " " b " " c" eq_refl eq_refl eq_refl));
      reflexivity.
  - apply (proj2 (proj2 (proj2
             (fieldRule_malformed Fixtures.env Fixtures.conf
                (Fixtures.field "X" TString "> b")
                "> b" "" " b" "" eq_refl eq_refl eq_refl))));
      reflexivity.
Defined.

End RuleMore.

(** ** Rules of a type, identity and writes *)

Module WriteMore.

Import GoStrings.
Import Quad.
Import Schema.

Import RuleFacts.
Import WriteFacts.

Section Write.

Context {World WErr : Type}.
Variable env : Env World WErr.
Variable c : Config World.

Lemma rulesFor_flat_loop (name : string) (fields : list StructField)
  (pref : string) (out : gmap string rule) :
  Forall (fun f => Anonymous f = false /\ exists r, fieldRule env c f = Ok r) fields ->
  List.NoDup (List.map (fun f => (pref ++ Name f)%string) fields) ->
  (forall f, In f fields -> out !! (pref ++ Name f)%string = None) ->
  exists rules,
    rulesForStructTo env c out pref (TStruct name fields) = Ok rules /\
    (forall f, In f fields ->
               fieldRule env c f = Ok (rules !! (pref ++ Name f)%string)) /\
    (forall k, ~ In k (List.map (fun f => (pref ++ Name f)%string) fields) ->
               rules !! k = out !! k).
Proof.
  cbn [rulesForStructTo]. revert out.
  induction fields as [|f fs IH]; intros out H Hnd Hout.
  - exists out. split; [reflexivity |]. split; [intros f [] | reflexivity].
  - inversion H as [|? ? [Ha [r Hr]] Hfs]; subst.
    cbn [List.map] in Hnd. inversion Hnd as [|? ? Hnin Hnd']; subst.
    rewrite Ha, Hr.
    set (key := (pref ++ Name f)%string) in *.
    destruct r as [r|].
    + destruct (IH (<[key := r]> out) Hfs Hnd') as (rules & Hl & Hin & Hk).
      { intros g Hg. rewrite lookup_insert_ne.
        - apply Hout. now right.
        - intros E. apply Hnin. rewrite E.
          now apply (in_map (fun f => (pref ++ Name f)%string)). }
      exists rules. split; [exact Hl |]. split.
      * intros g [<- | Hg]; [| now apply Hin].
        fold key. rewrite Hk by assumption. now rewrite lookup_insert_eq.
      * intros k Hnk. rewrite Hk by (intros X; apply Hnk; now right).
        apply lookup_insert_ne. intros <-. apply Hnk. now left.
    + destruct (IH out Hfs Hnd') as (rules & Hl & Hin & Hk).
      { intros g Hg. apply Hout. now right. }
      exists rules. split; [exact Hl |]. split.
      * intros g [<- | Hg]; [| now apply Hin].
        fold key. rewrite Hk by assumption. unfold key.
        rewrite Hout; [exact Hr | now left].
      * intros k Hnk. apply Hk. intros X. apply Hnk. now right.
Qed.

(** X5. The rules of a record type without embedded fields, all of whose
    annotations are readable and whose field names differ: [rulesFor]
    succeeds, the rule under the name of a field is the one [fieldRule] gives
    for it (none where it gives none), and there is no rule under any other
    key. *)
Theorem rulesFor_flat (name : string) (fields : list StructField) :
  Forall (fun f => Anonymous f = false /\ exists r, fieldRule env c f = Ok r) fields ->
  List.NoDup (List.map Name fields) ->
  exists rules,
    rulesFor env c (TStruct name fields) = Ok rules /\
    (forall f, In f fields -> fieldRule env c f = Ok (rules !! Name f)) /\
    (forall k, ~ In k (List.map Name fields) -> rules !! k = None).
Proof.
  intros H Hnd.
  destruct (rulesFor_flat_loop name fields "" ∅ H Hnd) as (rules & Hl & Hin & Hk).
  { intros f _. apply lookup_empty. }
  exists rules. split; [exact Hl |]. split; [exact Hin |].
  intros k Hn. rewrite (Hk k Hn). apply lookup_empty.
Qed.

Lemma rulesFor_first_error_loop (name : string) (pre post : list StructField)
  (f : StructField) (e : error WErr) (pref : string) (out : gmap string rule) :
  Forall (fun g => Anonymous g = false /\ exists r, fieldRule env c g = Ok r) pre ->
  Anonymous f = false -> fieldRule env c f = Err e ->
  rulesForStructTo env c out pref (TStruct name (pre ++ f :: post)) = Err e.
Proof.
  intros Hpre Ha He. cbn [rulesForStructTo]. revert out.
  induction Hpre as [|g pre [Hga [r Hr]] Hpre IH]; intros out; cbn [app].
  - now rewrite Ha, He.
  - rewrite Hga, Hr. destruct r; apply IH.
Qed.

(** X6. An annotation that [fieldRule] refuses makes [WriteAsQuads] fail
    before anything is written or any identifier is drawn: the error wraps
    that of the first such field in declaration order, whatever the value
    written. *)
Theorem WriteAsQuads_bad_annotation (name : string) (pre post : list StructField)
  (f : StructField) (e : error WErr) (rv : GoValue) (w : World) :
  Forall (fun g => Anonymous g = false /\ exists r, fieldRule env c g = Ok r) pre ->
  Anonymous f = false -> fieldRule env c f = Err e ->
  WriteAsQuads env c (Some (TStruct name (pre ++ f :: post), rv)) w
  = (Err (ErrCantLoadRules e), w).
Proof.
  intros Hpre Ha He. unfold WriteAsQuads, WriteAsQuadsWith. cbn [asQuadValue].
  unfold bind, derefValue, ret. cbn [derefType]. unfold rulesFor.
  now rewrite (rulesFor_first_error_loop name pre post f e "" ∅ Hpre Ha He).
Qed.

(** X7. A record type none of whose fields has a rule cannot be written:
    [WriteAsQuads] fails with the error on missing rules and leaves the
    writer untouched. *)
Theorem WriteAsQuads_no_rules (name : string) (fields : list StructField)
  (rv : GoValue) (w : World) :
  Forall (fun f => Anonymous f = false /\ fieldRule env c f = Ok None) fields ->
  WriteAsQuads env c (Some (TStruct name fields, rv)) w = (Err ErrNoRules, w).
Proof.
  intros H. unfold WriteAsQuads, WriteAsQuadsWith. cbn [asQuadValue].
  unfold bind, derefValue, ret. cbn [derefType].
  assert (Hr : forall pref out, rulesForStructTo env c out pref (TStruct name fields) = Ok out).
  { intros pref out. cbn [rulesForStructTo]. revert out.
    induction H as [|f fs [Ha Hf] H IH]; intros out; [reflexivity |].
    rewrite Ha, Hf. apply IH. }
  unfold rulesFor. rewrite Hr. reflexivity.
Qed.
Lemma idForFirst_no_id (rules : gmap string rule) (fs : list StructField)
  (rv : GoValue) (pref : string) (i : nat) (b : bool) :
  Forall (fun g => rules !! (pref ++ Name g)%string <> Some idRule) fs ->
  idForFirst env c rules fs rv pref i b = inr (b || existsb Anonymous fs).
Proof.
  intros H. revert i b.
  induction H as [|g fs Hg H IH]; intros i b; cbn [idForFirst existsb].
  - now rewrite orb_false_r.
  - destruct (rules !! (pref ++ Name g)%string) as [[]|] eqn:E;
      try (rewrite IH; now rewrite orb_assoc).
    congruence.
Qed.

(** The identity of a record without identity field of its own is that of
    its first embedded field, unless that one has none. *)
Lemma idFor_embedded (rules : gmap string rule) (name : string)
  (pre post : list StructField) (f : StructField) (rv fv : GoValue)
  (pref : string) :
  Forall (fun g => rules !! (pref ++ Name g)%string <> Some idRule)
    (pre ++ f :: post) ->
  Forall (fun g => Anonymous g = false) pre ->
  Anonymous f = true ->
  Field rv (List.length pre) = Some fv ->
  idFor env c rules (Type_ f) fv (pref ++ Name f ++ ".") <> Ok None ->
  idFor env c rules (TStruct name (pre ++ f :: post)) rv pref
  = idFor env c rules (Type_ f) fv (pref ++ Name f ++ ".").
Proof.
  intros Hno Hpre Ha Hfv Hsub. cbn [idFor].
  rewrite (idForFirst_no_id rules _ rv pref 0 false Hno).
  rewrite existsb_app. cbn [existsb orb]. rewrite Ha, orb_true_r.
  replace (List.length pre) with (List.length pre + 0) in Hfv by lia.
  revert Hfv. generalize 0. clear Hno.
  induction Hpre as [|g pre Hg Hpre IH]; intros i Hfv; cbn [app List.length].
  - rewrite Ha. cbn [negb]. cbn [List.length Nat.add] in Hfv. rewrite Hfv.
    destruct (idFor env c rules (Type_ f) fv (pref ++ Name f ++ ".")) as [[v|]| |] eqn:E;
      try reflexivity. now exfalso.
  - rewrite Hg. cbn [negb]. apply IH.
    cbn [List.length] in Hfv. now rewrite Nat.add_succ_r.
Qed.

(** X8. A record without identity field of its own whose first embedded
    field is a pointer makes [WriteAsQuads] panic, although [rulesFor]
    accepts the type: the second pass of [idFor] hands the pointer type on,
    and [NumField] panics on it. Nothing is written. *)
Theorem WriteAsQuads_embedded_pointer_panics (rules : gmap string rule)
  (name : string) (pre post : list StructField) (f : StructField)
  (e : GoType) (rv fv : GoValue) (w : World) :
  rulesFor env c (TStruct name (pre ++ f :: post)) = Ok rules ->
  size rules <> 0 ->
  Forall (fun g => rules !! Name g <> Some idRule) (pre ++ f :: post) ->
  Forall (fun g => Anonymous g = false) pre ->
  Anonymous f = true -> Type_ f = TPtr e ->
  Field rv (List.length pre) = Some fv ->
  WriteAsQuads env c (Some (TStruct name (pre ++ f :: post), rv)) w = (Panic, w).
Proof.
  intros Hr Hs Hno Hpre Ha Ht Hfv.
  unfold WriteAsQuads, WriteAsQuadsWith. cbn [asQuadValue].
  unfold bind at 1. unfold derefValue, ret. cbn [derefType]. rewrite Hr.
  apply Nat.eqb_neq in Hs. rewrite Hs. unfold bind, lift.
  rewrite (idFor_embedded rules name pre post f rv fv "" Hno Hpre Ha Hfv);
    rewrite Ht; [reflexivity | discriminate].
Qed.

(** X9. When the first field marked [@id] holds a value that is neither a
    [quad.IRI], a [quad.BNode] nor a [string], [WriteAsQuads] fails with the
    error on the type of the identity field and writes nothing. *)
Theorem WriteAsQuads_bad_identity (rules : gmap string rule)
  (name : string) (pre post : list StructField) (f : StructField)
  (rv fv : GoValue) (e : error WErr) (w : World) :
  rulesFor env c (TStruct name (pre ++ f :: post)) = Ok rules ->
  Forall (fun g => rules !! Name g <> Some idRule) pre ->
  rules !! Name f = Some idRule ->
  Field rv (List.length pre) = Some fv ->
  idOfField env c (Interface (Type_ f, fv)) = Err e ->
  e = ErrUnsupportedIdType /\
  WriteAsQuads env c (Some (TStruct name (pre ++ f :: post), rv)) w
  = (Err ErrUnsupportedIdType, w).
Proof.
  intros Hr Hpre Hf Hfv He.
  assert (e = ErrUnsupportedIdType) as ->.
  { unfold idOfField in He. repeat case_match; simplify_eq; reflexivity. }
  split; [reflexivity |].
  unfold WriteAsQuads, WriteAsQuadsWith. cbn [asQuadValue].
  unfold bind at 1. unfold derefValue, ret. cbn [derefType]. rewrite Hr.
  assert (Hsize : Nat.eqb (size rules) 0 = false).
  { apply Nat.eqb_neq. intros Hs. apply map_size_empty_iff in Hs. subst rules.
    rewrite lookup_empty in Hf. discriminate. }
  rewrite Hsize. unfold bind, lift. cbn [idFor].
  rewrite (idForFirst_found env c rules pre post f rv "" 0 false Hpre Hf).
  rewrite Nat.add_0_r, Hfv, He. reflexivity.
Qed.

(** X10. One value under one predicate: a zero value writes nothing and is
    no error; a value [quad.AsValue] takes is written as exactly one quad,
    subject and object swapped for a reverse rule, under the label of the
    configuration; a value it refuses that is neither a pointer nor a struct
    is an error, and nothing is written. *)
Theorem writeOneValReflect_plain (id pred : Value) (rt : GoType) (rv : GoValue)
  (rev : bool) (w : World) :
  (isZero (E:=error WErr) (rt, rv) = Ok true ->
   writeOneValReflect env c id pred rt rv rev w = (Ok tt, w)) /\
  (forall targ,
      isZero (E:=error WErr) (rt, rv) = Ok false ->
      AsValue env (Interface (rt, rv)) = (targ, true) ->
      writeOneValReflect env c id pred rt rv rev w
      = writeQuad env
          (if rev then mkQuad targ pred id (Label c)
           else mkQuad id pred targ (Label c)) w) /\
  (forall targ,
      isZero (E:=error WErr) (rt, rv) = Ok false ->
      AsValue env (Interface (rt, rv)) = (targ, false) ->
      isKind rt KindPtr = false -> isKind rt KindStruct = false ->
      writeOneValReflect env c id pred rt rv rev w = (Err ErrUnsupportedType, w)).
Proof.
  unfold writeOneValReflect, writeOneValReflectWith, bind, lift.
  repeat split.
  - intros ->. reflexivity.
  - intros targ -> ->. cbn. unfold quadOf. reflexivity.
  - intros targ -> Ha Hp Hs. rewrite Ha.
    assert (Hd : derefValue (WErr:=WErr) rt rv w = (Ok rv, w)).
    { destruct rt; try reflexivity. discriminate. }
    rewrite Hd.
    assert (Ht : derefType rt = rt) by (destruct rt; reflexivity || discriminate).
    rewrite Ht, Ha, Hs. cbn. reflexivity.
Qed.

(** X11. A nested record, held by value or behind a pointer, that
    [quad.AsValue] does not take is written by [WriteAsQuads] first, and then
    linked to by one quad whose other end is the identifier that call
    returned. *)
Theorem writeOneValReflect_nested (id pred : Value) (name : string)
  (fields : list StructField) (rv : GoValue) (rev : bool) (w : World) :
  isZero (E:=error WErr) (TStruct name fields, rv) = Ok false ->
  snd (AsValue env (Interface (TStruct name fields, rv))) = false ->
  writeOneValReflect env c id pred (TStruct name fields) rv rev w
  = bind (WriteAsQuads env c (Some (TStruct name fields, rv)))
         (fun sid => writeQuad env (quadOf c id pred sid rev)) w /\
  (snd (AsValue env (Interface (TPtr (TStruct name fields), VPtr rv))) = false ->
   writeOneValReflect env c id pred (TPtr (TStruct name fields)) (VPtr rv) rev w
   = bind (WriteAsQuads env c (Some (TStruct name fields, rv)))
          (fun sid => writeQuad env (quadOf c id pred sid rev)) w).
Proof.
  intros Hz Ha.
  assert (Hk : isKind (TStruct name fields) KindStruct = true) by reflexivity.
  unfold writeOneValReflect, writeOneValReflectWith, writeSub, WriteAsQuads.
  split.
  - unfold bind, lift. rewrite Hz.
    destruct (AsValue env (Interface (TStruct name fields, rv))) as [targ ok] eqn:E.
    cbn in Ha. subst ok.
    cbn [derefValue derefType ret]. rewrite E. cbn [negb andb]. rewrite Hk.
    cbn [Interface].
    destruct (WriteAsQuadsWith _ _ _ _ _ _ w) as [[sid| |] w1]; reflexivity.
  - intros Hp. unfold bind, lift.
    change (isZero (E:=error WErr) (TPtr (TStruct name fields), VPtr rv)) with (Ok (E:=error WErr) false).
    cbn iota.
    destruct (AsValue env (Interface (TPtr (TStruct name fields), VPtr rv))) as [targ' ok'] eqn:E'.
    cbn in Hp. subst ok'.
    cbn [derefValue derefType ret].
    destruct (AsValue env (Interface (TStruct name fields, rv))) as [targ ok] eqn:E.
    cbn in Ha. subst ok. cbn [negb andb]. rewrite Hk. cbn [Interface].
    destruct (WriteAsQuadsWith _ _ _ _ _ _ w) as [[sid| |] w1]; reflexivity.
Qed.

Lemma forEach_slice (id pred : Value) (et : GoType) (rev : bool)
  (l : list GoValue) (w : World) :
  Forall (fun x => exists z,
              isZero (E:=error WErr) (et, x) = Ok z /\
              (z = false -> snd (AsValue env (Interface (et, x))) = true)) l ->
  forEach l (fun x => writeOneValReflect env c id pred et x rev) w
  = forEach
      (flat_map (fun x =>
                   match isZero (E:=error WErr) (et, x) with
                   | Ok false =>
                       [quadOf c id pred (fst (AsValue env (Interface (et, x)))) rev]
                   | _ => []
                   end) l)
      (writeQuad env) w.
Proof.
  intros H. revert w. induction H as [|x l (z & Hz & Ha) H IH]; intros w.
  - reflexivity.
  - cbn [forEach flat_map]. rewrite Hz.
    unfold bind at 1. unfold writeOneValReflect at 1, writeOneValReflectWith.
    unfold bind at 1, lift. rewrite Hz.
    destruct z.
    + cbn [app]. unfold ret. apply IH.
    + specialize (Ha eq_refl).
      destruct (AsValue env (Interface (et, x))) as [targ ok] eqn:E.
      cbn in Ha. subst ok. cbn [fst app forEach].
      unfold bind. cbn [ret snd fst negb].
      destruct (writeQuad env (quadOf c id pred targ rev) w) as [[[]| |] w1];
        try reflexivity.
      apply IH.
Qed.

(** X12. A field of slice kind with a save rule writes one quad per element
    that is not the zero value of the element type, in the order of the
    slice, whether the rule is optional or required: an empty or nil slice
    writes nothing and is never an error. The elements are ones
    [quad.AsValue] takes. *)
Theorem writeField_slice (id : Value) (rv fv : GoValue) (pref : string)
  (rules : gmap string rule) (f : StructField) (i : nat) (p : string)
  (rev opt : bool) (w : World) :
  Anonymous f = false ->
  rules !! (pref ++ Name f)%string = Some (saveRule p rev opt) ->
  isKind (Type_ f) KindSlice = true ->
  Field rv i = Some fv ->
  Forall (fun x => exists z,
              isZero (E:=error WErr) (elemType (Type_ f), x) = Ok z /\
              (z = false ->
               snd (AsValue env (Interface (elemType (Type_ f), x))) = true))
    (elements fv) ->
  writeField env c (writeValueAs env c) (writeOneValReflect env c)
    id rv pref rules f i w
  = forEach
      (flat_map (fun x =>
                   match isZero (E:=error WErr) (elemType (Type_ f), x) with
                   | Ok false =>
                       [quadOf c id (Some (IRI p))
                          (fst (AsValue env (Interface (elemType (Type_ f), x)))) rev]
                   | _ => []
                   end) (elements fv))
      (writeQuad env) w.
Proof.
  intros Ha Hr Hk Hf Hall. unfold writeField. rewrite Ha, Hr, Hf, Hk.
  now apply forEach_slice.
Qed.

(** X13. For a registered type the type quad is the first write: when the
    writer refuses it, [WriteAsQuads] returns the error of the writer and no
    identifier, though an identifier may have been drawn from the
    generator. *)
Theorem WriteAsQuads_type_quad_refused (name : string)
  (fields : list StructField) (rv : GoValue) (rules : gmap string rule)
  (idr id : Value) (e : WErr) (w w1 w2 : World) :
  rulesFor env c (TStruct name fields) = Ok rules ->
  size rules <> 0 ->
  idFor env c rules (TStruct name fields) rv "" = Ok idr ->
  match idr with
  | Some _ => (idr, w)
  | None => genID env c (Some (TStruct name fields, rv)) w
  end = (id, w1) ->
  typeToIRI env (TStruct name fields) <> "" ->
  WriteQuad env (typeQuad env c id (typeToIRI env (TStruct name fields))) w1
  = (Some e, w2) ->
  WriteAsQuads env c (Some (TStruct name fields, rv)) w = (Err (ErrWriter e), w2).
Proof.
  intros Hr Hs Hid Hpick Hreg HW.
  unfold WriteAsQuads, WriteAsQuadsWith. cbn [asQuadValue].
  unfold bind at 1. unfold derefValue, ret at 1. cbn [derefType]. rewrite Hr.
  apply Nat.eqb_neq in Hs. rewrite Hs. unfold bind at 1, lift. rewrite Hid.
  unfold bind at 1.
  assert (Hp : match idr with
               | Some _ => ret (WErr:=WErr) idr
               | None => fun w0 => let '(v, w'0) := genID env c (Some (TStruct name fields, rv)) w0 in (Ok v, w'0)
               end w = (Ok id, w1)).
  { destruct idr; [now inversion Hpick |].
    destruct (genID env c (Some (TStruct name fields, rv)) w). now inversion Hpick. }
  rewrite Hp. unfold bind at 1. rewrite writeValueAs_struct.
  apply String.eqb_neq in Hreg. unfold bind at 1. rewrite Hreg. cbn [negb].
  unfold writeQuad. rewrite HW. reflexivity.
Qed.
End Write.

(** The type [Person]. *)
Lemma rulesFor_flat_witness :
  exists rules,
    rulesFor (WErr:=string) Fixtures.env Fixtures.conf Fixtures.Person = Ok rules /\
    rules !! "Name" = Some (saveRule "name" false false) /\
    rules !! "name" = None.
Proof.
  destruct (rulesFor_flat (WErr:=string) Fixtures.env Fixtures.conf "Person"
              [ Fixtures.field "ID" (TQuad QIRI) "@id";
                Fixtures.field "Name" TString "name";
                Fixtures.field "Follows" (TSlice (TQuad QIRI)) "follows" ])
    as (rules & Hr & Hin & Hout).
  - repeat constructor; eexists; reflexivity.
  - repeat constructor; cbn; intuition discriminate.
  - exists rules. split; [exact Hr |]. split.
    + specialize (Hin (Fixtures.field "Name" TString "name")).
      cbn in Hin. symmetry. injection Hin as <-; [reflexivity | auto].
    + apply Hout. cbn. intuition discriminate.
Defined.

(** The type [Broken]. *)
Lemma WriteAsQuads_bad_annotation_witness :
  WriteAsQuads Fixtures.env Fixtures.conf
    (Some (Fixtures.Broken, VStruct [VQuad (IRI "b"); VString "x"])) Fixtures.w0
  = (Err (ErrCantLoadRules (ErrWrongTagFormat "a > b > c")), Fixtures.w0).
Proof.
  apply (WriteAsQuads_bad_annotation Fixtures.env Fixtures.conf "Broken"
           [Fixtures.field "ID" (TQuad QIRI) "@id"] []
           (Fixtures.field "X" TString "a > b > c")).
  - repeat constructor. eexists. reflexivity.
  - reflexivity.
  - reflexivity.
Defined.

(** The type [Bare]. *)
Lemma WriteAsQuads_no_rules_witness :
  WriteAsQuads (WErr:=string) Fixtures.env Fixtures.conf
    (Some (Fixtures.Bare, VStruct [VString "x"; VInt 1])) Fixtures.w0
  = (Err ErrNoRules, Fixtures.w0).
Proof.
  apply (WriteAsQuads_no_rules Fixtures.env Fixtures.conf "Bare").
  repeat constructor.
Defined.

(** The record [outer], which embeds a pointer to an [Item]. *)
Lemma WriteAsQuads_embedded_pointer_panics_witness :
  rulesFor (WErr:=string) Fixtures.env Fixtures.conf Fixtures.Outer
  = Ok {["Item.Name" := saveRule "name" false false]} /\
  WriteAsQuads (WErr:=string) Fixtures.env Fixtures.conf
    (Some (Fixtures.Outer, Fixtures.outer)) Fixtures.w0
  = (Panic, Fixtures.w0).
Proof.
  split; [reflexivity |].
  apply (WriteAsQuads_embedded_pointer_panics Fixtures.env Fixtures.conf
           {["Item.Name" := saveRule "name" false false]} "Outer" [] []
           (mkField "Item" (TPtr Fixtures.Item) (mkTag "" "") true)
           Fixtures.Item Fixtures.outer (VPtr Fixtures.item) Fixtures.w0).
  - reflexivity.
  - vm_compute. discriminate.
  - repeat constructor. vm_compute. discriminate.
  - constructor.
  - reflexivity.
  - reflexivity.
  - reflexivity.
Defined.

(** The record [numbered], whose identity field is an [int]. *)
Lemma WriteAsQuads_bad_identity_witness :
  WriteAsQuads (WErr:=string) Fixtures.env Fixtures.conf
    (Some (Fixtures.Numbered, Fixtures.numbered)) Fixtures.w0
  = (Err ErrUnsupportedIdType, Fixtures.w0).
Proof.
  apply (WriteAsQuads_bad_identity Fixtures.env Fixtures.conf
           (<["Name" := saveRule "name" false false]> (<["ID" := idRule]> ∅))
           "Numbered" [] [Fixtures.field "Name" TString "name"]
           (Fixtures.field "ID" TInt "@id") Fixtures.numbered (VInt 7)
           ErrUnsupportedIdType Fixtures.w0).
  - reflexivity.
  - constructor.
  - reflexivity.
  - reflexivity.
  - reflexivity.
Defined.

(** An [Item] held by value under the predicate [pet]. *)
Lemma writeOneValReflect_nested_witness :
  writeOneValReflect Fixtures.env Fixtures.conf (Some (IRI "alice"))
    (Some (IRI "pet")) Fixtures.Item Fixtures.item false Fixtures.w0
  = (Ok tt,
     ([ mkQuad (Some (BNode "n")) (Some (IRI "name")) (Some (String_ "pen")) None;
        mkQuad (Some (IRI "alice")) (Some (IRI "pet")) (Some (BNode "n")) None ], 1)).
Proof.
  exact (eq_trans
           (proj1 (writeOneValReflect_nested Fixtures.env Fixtures.conf
                     (Some (IRI "alice")) (Some (IRI "pet")) "Item"
                     [Fixtures.field "Name" TString "name"] Fixtures.item false
                     Fixtures.w0 eq_refl eq_refl))
           eq_refl).
Defined.

(** The field [Follows] of [alice]. *)
Lemma writeField_slice_witness :
  writeField Fixtures.env Fixtures.conf
    (writeValueAs Fixtures.env Fixtures.conf)
    (writeOneValReflect Fixtures.env Fixtures.conf)
    (Some (IRI "alice")) Fixtures.alice "" Fixtures.personRules
    (Fixtures.field "Follows" (TSlice (TQuad QIRI)) "follows") 2 Fixtures.w0
  = (Ok tt,
     ([ mkQuad (Some (IRI "alice")) (Some (IRI "follows")) (Some (IRI "bob")) None;
        mkQuad (Some (IRI "alice")) (Some (IRI "follows")) (Some (IRI "carol")) None ],
      0)).
Proof.
  refine (eq_trans
            (writeField_slice Fixtures.env Fixtures.conf (Some (IRI "alice"))
               Fixtures.alice (VSlice [VQuad (IRI "bob"); VQuad (IRI "carol")]) ""
               Fixtures.personRules
               (Fixtures.field "Follows" (TSlice (TQuad QIRI)) "follows") 2
               "follows" false true Fixtures.w0 eq_refl eq_refl eq_refl eq_refl _)
            eq_refl).
  repeat constructor; exists false; split; reflexivity.
Defined.

(** [alice] handed to a writer that refuses every quad. *)
Lemma WriteAsQuads_type_quad_refused_witness :
  WriteAsQuads Fixtures.refusing Fixtures.conf
    (Some (Fixtures.Person, Fixtures.alice)) Fixtures.w0
  = (Err (ErrWriter "refused"), Fixtures.w0).
Proof.
  apply (WriteAsQuads_type_quad_refused Fixtures.refusing Fixtures.conf "Person"
           [ Fixtures.field "ID" (TQuad QIRI) "@id";
             Fixtures.field "Name" TString "name";
             Fixtures.field "Follows" (TSlice (TQuad QIRI)) "follows" ]
           Fixtures.alice Fixtures.personRules
           (Some (IRI "alice")) (Some (IRI "alice")) "refused"
           Fixtures.w0 Fixtures.w0 Fixtures.w0).
  - reflexivity.
  - vm_compute. discriminate.
  - reflexivity.
  - reflexivity.
  - discriminate.
  - reflexivity.
Defined.

End WriteMore.

(** ** The load loop *)

Module LoadMore.

Import GoStrings.
Import Quad.
Import Schema.

Import LoadFacts.

Section Load.

Context {GValue : Type} `{EqDecision GValue} {KeyT : Type} `{EqDecision KeyT}.
Variable Key : GValue -> option KeyT.
Variable loadFields :
  GoType -> GoValue -> Z -> gmap string (list GValue) -> Res loadError GoValue.

Lemma mergePath_lookup (mo : gmap string (list GValue)) (mp : gmap string GValue)
  (k : string) :
  mergePath Key mo mp !! k =
  match mp !! k with
  | Some v => Some (mergeTag Key (mo !! k) v)
  | None => mo !! k
  end.
Proof.
  unfold mergePath. destruct (Nat.eqb (size mp) 0) eqn:E.
  - apply Nat.eqb_eq, map_size_empty_iff in E. subst mp. now rewrite lookup_empty.
  - rewrite lookup_merge. destruct (mo !! k), (mp !! k); reflexivity.
Qed.

Lemma mergeTag_spec (sl : option (list GValue)) (v : GValue) :
  exists tl,
    mergeTag Key sl v = (default [] sl ++ tl)%list /\
    (tl = [] /\ existsb (fun x => keysEqual Key x v) (default [] sl) = true \/
     tl = [v] /\ existsb (fun x => keysEqual Key x v) (default [] sl) = false).
Proof.
  unfold mergeTag. destruct sl as [[|x [|y l]]|]; cbn [default].
  - exists [v]. cbn. auto.
  - destruct (keysEqual Key x v) eqn:Ek.
    + exists []. cbn. rewrite Ek. auto.
    + exists [v]. cbn. rewrite Ek. auto.
  - destruct (existsb _ _) eqn:E.
    + exists []. rewrite app_nil_r. auto.
    + exists [v]. auto.
  - exists [v]. cbn. auto.
Qed.

Lemma FOP_snoc (R : GValue -> GValue -> Prop) (l : list GValue) (v : GValue) :
  ForallOrdPairs R l -> Forall (fun x => R x v) l -> ForallOrdPairs R (l ++ [v]).
Proof.
  intros H. induction H as [|x l Hx H IH]; intros Hv; cbn.
  - constructor; constructor.
  - inversion Hv; subst. constructor.
    + apply Forall_app. split; [assumption | now constructor].
    + now apply IH.
Qed.

(** What one round of merging keeps. *)
Lemma mergePath_keeps (mo : gmap string (list GValue)) (mp : gmap string GValue)
  (k : string) :
  (forall l, mo !! k = Some l -> l <> [] /\
             ForallOrdPairs (fun a b => keysEqual Key a b = false) l) ->
  (forall l, mergePath Key mo mp !! k = Some l ->
             l <> [] /\ ForallOrdPairs (fun a b => keysEqual Key a b = false) l) /\
  (forall v l, mo !! k = Some (v :: l) ->
               exists l', mergePath Key mo mp !! k = Some (v :: l')).
Proof.
  intros Hinv. rewrite mergePath_lookup.
  destruct (mp !! k) as [v|] eqn:Ev.
  - destruct (mergeTag_spec (mo !! k) v) as (tl & Hm & Htl). rewrite Hm. split.
    + intros l [= <-].
      destruct (mo !! k) as [l0|] eqn:E; cbn [from_option id] in *.
      * destruct (Hinv l0 eq_refl) as [Hne Hfop].
        destruct Htl as [[-> _] | [-> Hex]].
        -- now rewrite app_nil_r.
        -- split; [now destruct l0 |]. apply FOP_snoc; [assumption |].
           apply List.Forall_forall. intros x Hx.
           destruct (keysEqual Key x v) eqn:Ek; [| reflexivity].
           assert (existsb (fun x => keysEqual Key x v) l0 = true).
           { apply existsb_exists. exists x. now split. }
           congruence.
      * destruct Htl as [[_ Hex] | [-> _]]; [discriminate |].
        split; [discriminate |]. constructor; constructor.
    + intros v0 l E. rewrite E. cbn [from_option id app]. eexists. reflexivity.
  - split; [exact Hinv |]. intros v l E. eauto.
Qed.

Lemma bindings_lists (r : Result GValue) (k : string) :
  (forall l, bindings Key r !! k = Some l ->
             l <> [] /\ ForallOrdPairs (fun a b => keysEqual Key a b = false) l) /\
  (forall v, tags r !! k = Some v ->
             exists l, bindings Key r !! k = Some (v :: l)).
Proof.
  unfold bindings.
  assert (Hgen : forall ps mo,
             (forall l, mo !! k = Some l -> l <> [] /\
                        ForallOrdPairs (fun a b => keysEqual Key a b = false) l) ->
             (forall l, fold_left (mergePath Key) ps mo !! k = Some l ->
                        l <> [] /\
                        ForallOrdPairs (fun a b => keysEqual Key a b = false) l) /\
             (forall v l, mo !! k = Some (v :: l) ->
                          exists l', fold_left (mergePath Key) ps mo !! k
                                     = Some (v :: l'))).
  { induction ps as [|mp ps IH]; intros mo Hinv; cbn [fold_left].
    - split; [exact Hinv | eauto].
    - destruct (mergePath_keeps mo mp k Hinv) as [Hinv' Hhead].
      destruct (IH _ Hinv') as [H1 H2]. split; [exact H1 |].
      intros v l E. destruct (Hhead v l E) as [l' E']. eauto. }
  destruct (Hgen (paths r) ((fun v => [v]) <$> tags r)) as [H1 H2].
  { intros l. rewrite lookup_fmap. destruct (tags r !! k); cbn; [| discriminate].
    intros [= <-]. split; [discriminate |]. constructor; constructor. }
  split; [exact H1 |].
  intros v Hv. apply (H2 v []). now rewrite lookup_fmap, Hv.
Qed.

(** X15. The values [loadIteratorToDepth] collects for one result: under
    every tag the list is not empty, no two of its values are equal in the
    sense of [keysEqual], and the value bound when the result was reached
    stays first, whatever the later paths bind. *)
Theorem bindings_invariants (r : Result GValue) :
  (forall k l, bindings Key r !! k = Some l ->
               l <> [] /\ ForallOrdPairs (fun a b => keysEqual Key a b = false) l) /\
  (forall k v, tags r !! k = Some v ->
               exists l, bindings Key r !! k = Some (v :: l)).
Proof.
  split.
  - intros k. apply (proj1 (bindings_lists r k)).
  - intros k. apply (proj2 (bindings_lists r k)).
Qed.


Lemma requiredMissing_iff (fields : gmap string rule)
  (m : gmap string (list GValue)) :
  requiredMissing fields m = true <->
  exists name p rev,
    fields !! name = Some (saveRule p rev false) /\ default [] (m !! name) = [].
Proof.
  split.
  - unfold requiredMissing. intros H. apply existsb_exists in H as ([name r] & Hin & Hr).
    apply list_elem_of_In, elem_of_map_to_list in Hin. cbn in Hr.
    destruct r as [| p rev [] |]; try discriminate.
    exists name, p, rev. split; [assumption |].
    apply Nat.eqb_eq in Hr. now destruct (default [] (m !! name)).
  - intros (name & p & rev & Hf & Hm). now apply (requiredMissing_intro fields m name p rev).
Qed.

(** X16. On the bindings of a result the check of the required fields fails
    exactly when some required save rule has no entry at all under its name:
    an entry is never an empty list. *)
Theorem required_check_on_bindings (fields : gmap string rule) (r : Result GValue) :
  requiredMissing fields (bindings Key r) = true <->
  exists name p rev,
    fields !! name = Some (saveRule p rev false) /\ bindings Key r !! name = None.
Proof.
  rewrite requiredMissing_iff. split; intros (name & p & rev & Hf & Hm);
    exists name, p, rev; (split; [assumption |]).
  - destruct (bindings Key r !! name) as [l|] eqn:E; [| reflexivity].
    cbn in Hm. subst l.
    destruct (proj1 (bindings_lists r name) [] E) as [Hne _]. congruence.
  - now rewrite Hm.
Qed.

Lemma loadLoop_grows (fields : gmap string rule) (et : GoType) (depth : Z)
  (ctxDone itErr listInStore : bool) (rs : list (Result GValue)) (dst : Destination) :
  match dst with
  | DstStruct _ => True
  | DstSlice l =>
      exists added,
        snd (loadLoop Key loadFields ctxDone fields et depth itErr listInStore rs dst)
        = DstSlice (l ++ added) /\ List.length added <= List.length rs
  | DstChan sent closed =>
      exists added,
        snd (loadLoop Key loadFields ctxDone fields et depth itErr listInStore rs dst)
        = DstChan (sent ++ added) closed /\ List.length added <= List.length rs
  end.
Proof.
  revert dst. induction rs as [|r rs IH]; intros dst.
  - destruct dst as [v | l | sent closed]; [exact I | |];
      exists []; rewrite app_nil_r; cbn [loadLoop]; destruct itErr; split;
        (reflexivity || (cbn; lia)).
  - destruct dst as [v | l | sent closed]; [exact I | |]; cbn [loadLoop].
    + destruct ctxDone.
      { exists []. rewrite app_nil_r. split; [reflexivity | cbn; lia]. }
      destruct (Nat.eqb (size (tags r)) 0).
      { destruct (IH (DstSlice l)) as (added & E & Hl). exists added.
        split; [exact E | cbn; lia]. }
      destruct (loadToValue _ _ _ _ _ _) as [v | e |].
      * destruct (IH (DstSlice (l ++ [v]))) as (added & E & Hl).
        exists (v :: added). rewrite E, <- app_assoc. split; [reflexivity | cbn; lia].
      * destruct e; try (exists []; rewrite app_nil_r; split; [reflexivity | cbn; lia]).
        destruct (IH (DstSlice l)) as (added & E & Hl). exists added.
        split; [exact E | cbn; lia].
      * exists []. rewrite app_nil_r. split; [reflexivity | cbn; lia].
    + destruct ctxDone.
      { exists []. rewrite app_nil_r. split; [reflexivity | cbn; lia]. }
      destruct (Nat.eqb (size (tags r)) 0).
      { destruct (IH (DstChan sent closed)) as (added & E & Hl). exists added.
        split; [exact E | cbn; lia]. }
      destruct (loadToValue _ _ _ _ _ _) as [v | e |].
      * destruct (IH (DstChan (sent ++ [v]) closed)) as (added & E & Hl).
        exists (v :: added). rewrite E, <- app_assoc. split; [reflexivity | cbn; lia].
      * destruct e; try (exists []; rewrite app_nil_r; split; [reflexivity | cbn; lia]).
        destruct (IH (DstChan sent closed)) as (added & E & Hl). exists added.
        split; [exact E | cbn; lia].
      * exists []. rewrite app_nil_r. split; [reflexivity | cbn; lia].
Qed.

(** X17. Loading into a slice or a channel only appends: what the
    destination held stays, in order, and at most one record per result of
    the iterator is added, also when the load ends with an error. The load
    itself leaves the channel open or closed as it was. *)
Theorem load_into_sequence_appends (fields : gmap string rule) (et : GoType)
  (depth : Z) (ctxDone itErr listInStore : bool) (rs : list (Result GValue)) :
  (forall l, exists added,
      snd (loadLoop Key loadFields ctxDone fields et depth itErr listInStore rs
             (DstSlice l))
      = DstSlice (l ++ added) /\ List.length added <= List.length rs) /\
  (forall sent closed, exists added,
      snd (loadLoop Key loadFields ctxDone fields et depth itErr listInStore rs
             (DstChan sent closed))
      = DstChan (sent ++ added) closed /\ List.length added <= List.length rs).
Proof.
  split.
  - intros l.
    apply (loadLoop_grows fields et depth ctxDone itErr listInStore rs (DstSlice l)).
  - intros sent closed.
    apply (loadLoop_grows fields et depth ctxDone itErr listInStore rs
             (DstChan sent closed)).
Qed.

(** X18. A channel handed to [loadIteratorToDepth] is closed when the call
    returns, on every path: when the rules cannot be loaded, when the
    context is cancelled, when the iterator cannot be built, and after the
    loop, with or without error. What was sent before stays sent. *)
Theorem load_closes_channel {E : Type} (ctxDone : bool)
  (fields : Res E (gmap string rule)) (et : GoType) (depth : Z)
  (it : Res loadError (Iterator GValue)) (listInStore : bool)
  (sent : list GoValue) (closed : bool) :
  exists added,
    snd (loadIteratorToDepth Key loadFields ctxDone fields et depth it listInStore
           (DstChan sent closed))
    = DstChan (sent ++ added) true.
Proof.
  unfold loadIteratorToDepth.
  destruct fields as [fs | e |]; try (exists []; now rewrite app_nil_r).
  destruct ctxDone; [exists []; now rewrite app_nil_r |].
  destruct it as [i | e |]; try (exists []; now rewrite app_nil_r).
  destruct (loadLoop_grows fs et depth false (itErr i) listInStore (results i)
              (DstChan sent closed)) as (added & Hs & _).
  destruct (loadLoop _ _ _ _ _ _ _ _ _ _) as [r d]. cbn [snd] in *. subst d.
  exists added. reflexivity.
Qed.

(** X19. The loop into a slice or a channel never returns
    [errRequiredFieldIsMissing]. The filling of the fields never returns it:
    a nested load that fails with it is skipped and the other errors are
    passed on or wrapped. *)
Theorem load_sequence_never_required_missing (fields : gmap string rule)
  (et : GoType) (depth : Z) (ctxDone itErr listInStore : bool)
  (rs : list (Result GValue)) (dst : Destination) :
  (forall rt v d m, loadFields rt v d m <> Err errRequiredFieldIsMissing) ->
  (forall v, dst <> DstStruct v) ->
  fst (loadLoop Key loadFields ctxDone fields et depth itErr listInStore rs dst)
  <> Err errRequiredFieldIsMissing.
Proof.
  intros Hlf. revert dst. induction rs as [|r rs IH]; intros dst Hd; cbn [loadLoop].
  - destruct itErr; [discriminate |].
    destruct dst; [exfalso; eapply Hd; reflexivity | discriminate | discriminate].
  - destruct ctxDone; [discriminate |].
    destruct (Nat.eqb (size (tags r)) 0); [now apply IH |].
    destruct (loadToValue _ _ _ _ _ _) as [v | e |] eqn:El.
    + destruct dst; [exfalso; eapply Hd; reflexivity | |]; now apply IH.
    + destruct e; try discriminate.
      destruct dst; [exfalso; eapply Hd; reflexivity | |]; now apply IH.
    + discriminate.
Qed.

(** X20. Loading a single record stops at the first result that binds a tag
    and loads: results without bindings before it are passed over, and the
    results after it are not looked at. *)
Theorem load_single_first_usable (fields : gmap string rule) (et : GoType)
  (depth : Z) (itErr listInStore : bool) (skipped rest : list (Result GValue))
  (r : Result GValue) (v0 v : GoValue) :
  Forall (fun r0 => size (tags r0) = 0) skipped ->
  size (tags r) <> 0 ->
  loadToValue loadFields fields et v0 depth (bindings Key r) = Ok v ->
  loadLoop Key loadFields false fields et depth itErr listInStore
    (skipped ++ r :: rest) (DstStruct v0)
  = (Ok tt, DstStruct v).
Proof.
  intros Hs Hr Hl. induction Hs as [|r0 skipped H0 Hs IH]; cbn [app loadLoop].
  - apply Nat.eqb_neq in Hr. now rewrite Hr, Hl.
  - rewrite H0. exact IH.
Qed.

(** X21. Loading a single record from an iterator that ends without error
    and without a result that binds a tag fails, with an error [IsNotFound]
    accepts: [errRequiredFieldIsMissing] when the nodes asked for are in the
    store, [errNotFound] otherwise. The destination is left as it was. *)
Theorem load_single_not_found (fields : gmap string rule) (et : GoType)
  (depth : Z) (listInStore : bool) (rs : list (Result GValue)) (v0 : GoValue) :
  Forall (fun r0 => size (tags r0) = 0) rs ->
  exists e,
    loadLoop Key loadFields false fields et depth false listInStore rs (DstStruct v0)
    = (Err e, DstStruct v0) /\
    IsNotFound e = true /\
    e = (if listInStore then errRequiredFieldIsMissing else errNotFound).
Proof.
  intros Hs. induction Hs as [|r0 rs H0 Hs IH]; cbn [loadLoop].
  - destruct listInStore; eexists; repeat split.
  - rewrite H0. exact IH.
Qed.
Lemma wrapInt_succ_nonzero (depth : Z) :
  (- 2 ^ 63 <= depth < 2 ^ 63)%Z -> (0 <= depth)%Z -> wrapInt (depth + 1) <> 0%Z.
Proof.
  intros Hr Hp. unfold wrapInt.
  destruct (Z.eq_dec depth (2 ^ 63 - 1)%Z) as [-> | Hne].
  - vm_compute. discriminate.
  - rewrite Z.mod_small by lia. lia.
Qed.

(** X22. Through the exported [LoadIteratorToDepth] the required fields of
    the record loaded are checked whatever depth the caller asks for, zero
    included: the depth handed on is never zero, also when the increment
    wraps around. So a single record whose first result with bindings lacks
    a required field fails with [errRequiredFieldIsMissing]. Only the depth
    zero reached inside, by the nested loads, turns the check off. *)
Theorem LoadIteratorToDepth_checks_required {E : Type}
  (fields : gmap string rule) (et : GoType) (depth : Z)
  (it : Iterator GValue) (skipped rest : list (Result GValue)) (r : Result GValue)
  (listInStore : bool) (v0 : GoValue) :
  (- 2 ^ 63 <= depth < 2 ^ 63)%Z ->
  isKind et KindStruct = true ->
  results it = (skipped ++ r :: rest)%list ->
  Forall (fun r0 => size (tags r0) = 0) skipped ->
  size (tags r) <> 0 ->
  requiredMissing fields (bindings Key r) = true ->
  LoadIteratorToDepth Key loadFields (E:=E) false (Ok fields) et depth (Ok it)
    listInStore (DstStruct v0)
  = (Err errRequiredFieldIsMissing, DstStruct v0) /\
  loadToValue loadFields fields et v0 0 (bindings Key r)
  = loadFields et v0 0%Z (bindings Key r).
Proof.
  intros Hd Hk Hres Hsk Hr Hm. split.
  - unfold LoadIteratorToDepth, loadIteratorToDepth. rewrite Hres.
    set (d := if (0 <=? depth)%Z then wrapInt (depth + 1) else depth).
    assert (Hd0 : d <> 0%Z).
    { unfold d. destruct (0 <=? depth)%Z eqn:E0.
      - apply wrapInt_succ_nonzero; [exact Hd | lia].
      - apply Z.leb_gt in E0. lia. }
    clearbody d.
    assert (Hl : loadLoop Key loadFields false fields et d (itErr it) listInStore
                   (skipped ++ r :: rest) (DstStruct v0)
                 = (Err errRequiredFieldIsMissing, DstStruct v0)).
    { clear Hres. induction Hsk as [|r0 skipped H0 Hsk IH]; cbn [app loadLoop].
      - apply Nat.eqb_neq in Hr. rewrite Hr. unfold loadToValue.
        rewrite Hk, Hm. apply Z.eqb_neq in Hd0. rewrite Hd0. reflexivity.
      - rewrite H0. exact IH. }
    rewrite Hl. reflexivity.
  - unfold loadToValue. rewrite Hk. reflexivity.
Qed.

End Load.

(** Loading [Person] records from numbers without [Key] method, with a
    filling that returns the required-field error never. *)
Lemma load_sequence_never_required_missing_witness :
  loadLoop Fixtures.noKey Fixtures.fill false Fixtures.personRules
    Fixtures.Person (-1) false false [Fixtures.onlyID; Fixtures.named]
    (DstSlice [])
  = (Ok tt, DstSlice [VStruct [VInt 3]]) /\
  fst (loadLoop Fixtures.noKey Fixtures.fill false Fixtures.personRules
         Fixtures.Person (-1) false false [Fixtures.onlyID; Fixtures.named]
         (DstSlice []))
  <> Err errRequiredFieldIsMissing.
Proof.
  split; [reflexivity |].
  apply (load_sequence_never_required_missing Fixtures.noKey Fixtures.fill
           Fixtures.personRules Fixtures.Person (-1) false false false
           [Fixtures.onlyID; Fixtures.named] (DstSlice [])).
  - intros rt v d m. discriminate.
  - intros v. discriminate.
Defined.

(** The result [named] after a result without bindings. *)
Lemma load_single_first_usable_witness :
  loadLoop Fixtures.noKey Fixtures.fill false Fixtures.personRules
    Fixtures.Person (-1) false false
    [mkResult ∅ []; Fixtures.named; Fixtures.onlyID] (DstStruct VNil)
  = (Ok tt, DstStruct (VStruct [VInt 3])).
Proof.
  apply (load_single_first_usable Fixtures.noKey Fixtures.fill
           Fixtures.personRules Fixtures.Person (-1) false false
           [mkResult ∅ []] [Fixtures.onlyID] Fixtures.named VNil
           (VStruct [VInt 3])).
  - repeat constructor.
  - vm_compute. discriminate.
  - reflexivity.
Defined.

(** An iterator with one result that binds nothing, the nodes being in the
    store. *)
Lemma load_single_not_found_witness :
  exists e,
    loadLoop Fixtures.noKey Fixtures.fill false Fixtures.personRules
      Fixtures.Person (-1) false true [mkResult ∅ []] (DstStruct VNil)
    = (Err e, DstStruct VNil) /\
    IsNotFound e = true /\
    e = errRequiredFieldIsMissing.
Proof.
  apply (load_single_not_found Fixtures.noKey Fixtures.fill
           Fixtures.personRules Fixtures.Person (-1) true
           [mkResult ∅ []] VNil).
  repeat constructor.
Defined.

(** The depth zero asked for by the caller: the result [onlyID] lacks the
    required name. *)
Lemma LoadIteratorToDepth_checks_required_witness :
  LoadIteratorToDepth (E:=unit) Fixtures.noKey Fixtures.fill false
    (Ok Fixtures.personRules) Fixtures.Person 0
    (Ok (mkIterator [Fixtures.onlyID; Fixtures.named] false)) false
    (DstStruct VNil)
  = (Err errRequiredFieldIsMissing, DstStruct VNil).
Proof.
  apply (proj1 (LoadIteratorToDepth_checks_required (E:=unit) Fixtures.noKey
                  Fixtures.fill Fixtures.personRules Fixtures.Person 0
                  (mkIterator [Fixtures.onlyID; Fixtures.named] false)
                  [] [Fixtures.named] Fixtures.onlyID false VNil
                  ltac:(lia) eq_refl eq_refl ltac:(constructor)
                  ltac:(vm_compute; discriminate) eq_refl)).
Defined.

End LoadMore.

(** ** The registry of types *)

Module RegistryFacts.

Import GoStrings.
Import Quad.
Import Schema.

Section Registry.

(** [quad.IRI.Full]. *)
Variable Full : string -> string.

(** One call keeps the two maps in agreement. *)
Lemma RegisterType_agree (iri_ : string) (obj : option RegisterArg)
  (reg reg' : Registry) :
  (forall t i, typeToIRIMap reg t = Some i -> iriToTypeMap reg !! Full i = Some t) ->
  (forall f t, iriToTypeMap reg !! f = Some t ->
               exists i, typeToIRIMap reg t = Some i /\ Full i = f) ->
  RegisterType Full iri_ obj reg = Some reg' ->
  (forall t i, typeToIRIMap reg' t = Some i -> iriToTypeMap reg' !! Full i = Some t) /\
  (forall f t, iriToTypeMap reg' !! f = Some t ->
               exists i, typeToIRIMap reg' t = Some i /\ Full i = f).
Proof.
  intros H1 H2 H. unfold RegisterType in H.
  destruct obj as [obj|].
  - destruct (typeToIRIMap reg (typeOfArg obj)) eqn:Et; [discriminate |].
    destruct (iriToTypeMap reg !! Full iri_) eqn:Ei; [discriminate |].
    injection H as <-. split; cbn.
    + intros t i. destruct (decide (t = typeOfArg obj)) as [-> | Hne].
      * intros [= <-]. apply lookup_insert_eq.
      * intros Ht. rewrite lookup_insert_ne; [now apply H1 |].
        intros E. apply H1 in Ht. rewrite <- E in Ht. congruence.
    + intros f t. destruct (decide (Full iri_ = f)) as [<- | Hne].
      * rewrite lookup_insert_eq. intros [= <-]. exists iri_.
        now rewrite decide_True.
      * rewrite lookup_insert_ne by assumption. intros Hf.
        destruct (H2 f t Hf) as (i & Hi & Hfi). exists i.
        rewrite decide_False; [now split | congruence].
  - injection H as <-. split; cbn.
    + intros t i Ht.
      assert (Hti : typeToIRIMap reg t = Some i /\
                    iriToTypeMap reg !! Full iri_ <> Some t).
      { destruct (iriToTypeMap reg !! Full iri_) as [tp|] eqn:Ei.
        - destruct (decide (t = tp)); [discriminate |]. split; congruence.
        - split; [assumption | discriminate]. }
      destruct Hti as [Hti Hn]. rewrite lookup_delete_ne; [now apply H1 |].
      intros E. apply H1 in Hti. rewrite <- E in Hti. contradiction.
    + intros f t Hf.
      destruct (decide (Full iri_ = f)) as [<- | Hne].
      { rewrite lookup_delete_eq in Hf. discriminate. }
      rewrite lookup_delete_ne in Hf by assumption.
      destruct (H2 f t Hf) as (i & Hi & Hfi). exists i. split; [| assumption].
      destruct (iriToTypeMap reg !! Full iri_) as [tp|] eqn:Ei; [| assumption].
      destruct (decide (t = tp)) as [-> | ]; [| assumption].
      exfalso. destruct (H2 _ _ Ei) as (i' & Hi' & Hfi'). congruence.
Qed.

(** X23. Whatever calls of [RegisterType] a program has made without a
    panic, registrations and removals alike, the two maps of the registry
    agree: a type registered under an IRI is the type found under the full
    form of that IRI, and a type found under a full form is registered under
    an IRI with that full form. In particular no two types share a full
    form and no type has two IRIs. *)
Theorem registry_maps_agree (calls : list (string * option RegisterArg))
  (reg : Registry) :
  registerAll Full calls emptyRegistry = Some reg ->
  (forall t i, typeToIRIMap reg t = Some i -> iriToTypeMap reg !! Full i = Some t) /\
  (forall f t, iriToTypeMap reg !! f = Some t ->
               exists i, typeToIRIMap reg t = Some i /\ Full i = f).
Proof.
  assert (Hgen : forall calls r0 r,
             (forall t i, typeToIRIMap r0 t = Some i ->
                          iriToTypeMap r0 !! Full i = Some t) ->
             (forall f t, iriToTypeMap r0 !! f = Some t ->
                          exists i, typeToIRIMap r0 t = Some i /\ Full i = f) ->
             registerAll Full calls r0 = Some r ->
             (forall t i, typeToIRIMap r t = Some i ->
                          iriToTypeMap r !! Full i = Some t) /\
             (forall f t, iriToTypeMap r !! f = Some t ->
                          exists i, typeToIRIMap r t = Some i /\ Full i = f)).
  { clear. induction calls as [|[i obj] calls IH]; intros r0 r H1 H2 H;
      cbn [registerAll] in H.
    - injection H as <-. now split.
    - destruct (RegisterType Full i obj r0) as [r1|] eqn:E; [| discriminate].
      destruct (RegisterType_agree i obj r0 r1 H1 H2 E) as [H1' H2'].
      now apply (IH r1 r). }
  apply Hgen.
  - intros t i H. discriminate H.
  - intros f t H. cbn in H. rewrite lookup_empty in H. discriminate H.
Qed.

(** X24. A successful registration of a type under an IRI is read back by
    the mapper as that IRI, as it was given; until it is removed, registering
    anything under an IRI with the same full form panics, and so does
    registering the same type again under any IRI; and a call with a nil
    object and an IRI of the same full form removes it, after which both maps
    are as they were before the registration. *)
Theorem RegisterType_round_trip (iri_ : string) (obj : RegisterArg)
  (reg reg' : Registry) :
  RegisterType Full iri_ (Some obj) reg = Some reg' ->
  typeToIRIOf reg' (typeOfArg obj) = iri_ /\
  (forall iri2 obj2, Full iri2 = Full iri_ ->
                     RegisterType Full iri2 (Some obj2) reg' = None) /\
  (forall iri2 obj2, typeOfArg obj2 = typeOfArg obj ->
                     RegisterType Full iri2 (Some obj2) reg' = None) /\
  (forall iri2, Full iri2 = Full iri_ ->
     exists reg'',
       RegisterType Full iri2 None reg' = Some reg'' /\
       (forall t, typeToIRIMap reg'' t = typeToIRIMap reg t) /\
       iriToTypeMap reg'' = iriToTypeMap reg).
Proof.
  intros H. unfold RegisterType in H.
  destruct (typeToIRIMap reg (typeOfArg obj)) eqn:Et; [discriminate |].
  destruct (iriToTypeMap reg !! Full iri_) eqn:Ei; [discriminate |].
  injection H as <-. repeat split.
  - unfold typeToIRIOf. cbn. now rewrite decide_True.
  - intros iri2 obj2 E. unfold RegisterType. cbn. rewrite E, lookup_insert_eq.
    now destruct (decide _); [| destruct (typeToIRIMap reg (typeOfArg obj2))].
  - intros iri2 obj2 E. unfold RegisterType. cbn. rewrite E.
    now rewrite decide_True.
  - intros iri2 E. eexists. split; [reflexivity |]. cbn. rewrite E. split.
    + intros t. rewrite lookup_insert_eq.
      destruct (decide (t = typeOfArg obj)) as [-> |]; [now rewrite Et | reflexivity].
    + rewrite delete_insert_eq. now apply delete_id.
Qed.

End Registry.

(** The type [Person] registered through a pointer to a record, under the
    short form of an IRI whose full form is [http://ex/Person]. *)
Lemma registry_maps_agree_witness :
  exists reg,
    registerAll (fun s => if String.eqb s "ex:Person" then "http://ex/Person" else s)
      [("ex:Item", Some (ArgType Fixtures.Item));
       ("ex:Person", Some (ArgValue (TPtr Fixtures.Person, VPtr Fixtures.alice)));
       ("ex:Item", None)] emptyRegistry = Some reg /\
    typeToIRIMap reg Fixtures.Person = Some "ex:Person" /\
    iriToTypeMap reg !! "http://ex/Person" = Some Fixtures.Person /\
    typeToIRIMap reg Fixtures.Item = None.
Proof.
  destruct (registerAll (fun s => if String.eqb s "ex:Person" then "http://ex/Person" else s)
              [("ex:Item", Some (ArgType Fixtures.Item));
               ("ex:Person", Some (ArgValue (TPtr Fixtures.Person, VPtr Fixtures.alice)));
               ("ex:Item", None)] emptyRegistry) as [reg|] eqn:E;
    [| vm_compute in E; discriminate E].
  exists reg. split; [reflexivity |].
  assert (Hp : typeToIRIMap reg Fixtures.Person = Some "ex:Person").
  { vm_compute in E. injection E as <-. vm_compute. reflexivity. }
  split; [exact Hp |]. split.
  - exact (proj1 (registry_maps_agree _ _ reg E) Fixtures.Person "ex:Person" Hp).
  - vm_compute in E. injection E as <-. vm_compute. reflexivity.
Defined.

Lemma RegisterType_round_trip_witness :
  typeToIRIOf
    (mkRegistry
       (fun t => if decide (t = Fixtures.Person) then Some "ex:Person" else None)
       (<["ex:Person" := Fixtures.Person]> ∅))
    Fixtures.Person = "ex:Person".
Proof.
  exact (proj1 (RegisterType_round_trip (fun s => s) "ex:Person"
                  (ArgType Fixtures.Person) emptyRegistry _ eq_refl)).
Defined.

End RegistryFacts.

(** ** Namespaces *)

Module NamespaceFacts.

Import GoStrings.
Import Quad.
Import Schema.

Section Namespaces.

Context {World WErr : Type}.
Variable env : Env World WErr.
Variable c : Config World.

Local Abbreviation nsRules :=
  (<["Prefix" := saveRule (toIRI env c "cayley:prefix") false false]>
     (<["Full" := idRule]>
        (<["_" := constraintRule (toIRI env c "@type")
                    (toIRI env c "cayley:namespace") false]> ∅))).

Local Abbreviation isA ns :=
  (mkQuad (Some (IRI (nsFull ns))) (Some (IRI (toIRI env c "@type")))
     (Some (IRI (toIRI env c "cayley:namespace"))) (Label c)).

Local Abbreviation hasPrefix ns :=
  (mkQuad (Some (IRI (nsFull ns))) (Some (IRI (toIRI env c "cayley:prefix")))
     (Some (IRI (nsPrefix ns))) (Label c)).

Lemma rulesFor_namespace : rulesFor env c namespace = Ok nsRules.
Proof. reflexivity. Qed.

Lemma forEach_app (l1 l2 : list Quad) (w : World) :
  forEach (l1 ++ l2) (writeQuad env) w
  = bind (forEach l1 (writeQuad env)) (fun _ => forEach l2 (writeQuad env)) w.
Proof.
  revert w. induction l1 as [|q l1 IH]; intros w; cbn [forEach app].
  - reflexivity.
  - unfold bind.
    destruct (writeQuad env q w) as [[[]| |] w1]; try reflexivity.
    exact (IH w1).
Qed.

(** [forEach] over the quads of several items. *)
Lemma forEach_flat_map {A : Type} (l : list A) (f : A -> list Quad) (w : World) :
  forEach l (fun x => forEach (f x) (writeQuad env)) w
  = forEach (flat_map f l) (writeQuad env) w.
Proof.
  revert w. induction l as [|x l IH]; intros w; [reflexivity |].
  cbn [forEach flat_map]. rewrite forEach_app. unfold bind.
  destruct (forEach (f x) (writeQuad env) w) as [[[]| |] w1]; try reflexivity.
  apply IH.
Qed.

Lemma writeValueAs_namespace (ns : Namespace) (w : World) :
  typeToIRI env namespace = "" ->
  (forall s, AsValue env (Interface (TQuad QIRI, VQuad (IRI s))) = (Some (IRI s), true)) ->
  writeValueAs env c (Some (IRI (nsFull ns))) namespace
    (VStruct [VStruct []; VQuad (IRI (nsFull ns)); VQuad (IRI (nsPrefix ns))])
    "" nsRules w
  = if String.eqb (nsPrefix ns) ""
    then bind (writeQuad env (isA ns))
           (fun _ => fail (ErrReqFieldNotSet "Prefix")) w
    else forEach [isA ns; hasPrefix ns] (writeQuad env) w.
Proof.
  intros Hreg Has. unfold namespace in *. cbn [writeValueAs].
  rewrite Hreg. cbn [writeFieldsWith]. unfold writeField.
  cbn [Anonymous Name Type_ String.append].
  rewrite !lookup_insert_eq.
  rewrite (lookup_insert_ne _ "Prefix" "Full") by discriminate.
  rewrite !(lookup_insert_ne _ _ "_") by discriminate.
  rewrite !lookup_insert_eq.
  change (isKind (TQuad QIRI) KindSlice) with false.
  cbn [forEach].
  unfold writeOneValReflectWith, derefValue, isZero, quadOf, bind, ret, lift, fail.
  cbn [fst snd Field nth_error comparable isZeroValue negb String.eqb].
  change (isKind (TQuad QIRI) KindInterface) with false. cbn iota.
  rewrite Has. cbn [fst snd negb].
  destruct (writeQuad env _ w) as [[[]| |] w1];
    destruct (String.eqb (nsPrefix ns) ""); try reflexivity.
Qed.

Lemma bind_ext {A B : Type} (m m' : M (World:=World) (WErr:=WErr) A)
  (k k' : A -> M (World:=World) (WErr:=WErr) B) (w : World) :
  m w = m' w -> (forall a w', k a w' = k' a w') -> bind m k w = bind m' k' w.
Proof.
  intros Hm Hk. unfold bind. rewrite Hm.
  destruct (m' w) as [[a| |] w1]; [apply Hk | reflexivity | reflexivity].
Qed.

(** X25. When the type [namespace] is not registered, [quad.AsValue] takes an
    IRI as it is and no prefix is empty, [WriteNamespaces] writes for every
    namespace of the list, in order, two quads and nothing else: the
    namespace (its full form, as given) is a [cayley:namespace], and it has
    the prefix under [cayley:prefix]. The first refusal of the writer ends
    the call with what was written so far. The two predicates and the type
    go through [c.iri]; the full form and the prefix do not. *)
Theorem WriteNamespaces_quads (list : list Namespace) (w : World) :
  typeToIRI env namespace = "" ->
  (forall s, AsValue env (Interface (TQuad QIRI, VQuad (IRI s))) = (Some (IRI s), true)) ->
  Forall (fun ns => nsPrefix ns <> "") list ->
  WriteNamespaces env c list w
  = forEach (flat_map (fun ns => [isA ns; hasPrefix ns]) list) (writeQuad env) w.
Proof.
  intros Hreg Has Hall. unfold WriteNamespaces. rewrite rulesFor_namespace.
  rewrite <- forEach_flat_map. revert w.
  induction Hall as [|ns list Hns Hall IH]; intros w; [reflexivity |].
  change (forEach (ns :: list) ?f) with (bind (f ns) (fun _ => forEach list f)).
  apply bind_ext.
  - rewrite (writeValueAs_namespace ns w Hreg Has).
    apply String.eqb_neq in Hns. now rewrite Hns.
  - intros _ w'. apply IH.
Qed.

(** X26. A namespace with an empty prefix makes [WriteNamespaces] fail with
    [ErrReqFieldNotSet] on the field [Prefix], and the call is not undone:
    the quads of the namespaces before it stay written, and so does the type
    quad of the faulty namespace itself, which is written before the prefix
    is looked at. *)
Theorem WriteNamespaces_empty_prefix (pre post : list Namespace) (ns : Namespace)
  (w w1 : World) :
  typeToIRI env namespace = "" ->
  (forall s, AsValue env (Interface (TQuad QIRI, VQuad (IRI s))) = (Some (IRI s), true)) ->
  Forall (fun ns => nsPrefix ns <> "") pre ->
  nsPrefix ns = "" ->
  forEach (flat_map (fun ns => [isA ns; hasPrefix ns]) pre ++ [isA ns])%list
    (writeQuad env) w = (Ok tt, w1) ->
  WriteNamespaces env c (pre ++ ns :: post) w = (Err (ErrReqFieldNotSet "Prefix"), w1).
Proof.
  intros Hreg Has Hall Hns. unfold WriteNamespaces. rewrite rulesFor_namespace.
  revert w. induction Hall as [|n0 pre Hn0 Hall IH]; intros w Hw.
  - cbn [app flat_map forEach] in *. unfold bind at 1.
    rewrite (writeValueAs_namespace ns w Hreg Has). rewrite Hns. cbn [String.eqb].
    unfold bind, fail, ret in *.
    destruct (writeQuad env (isA ns) w) as [[[]| |] w2]; try discriminate.
    now inversion Hw.
  - cbn [app flat_map] in Hw.
    change (isA n0 :: hasPrefix n0 :: ?l) with ([isA n0; hasPrefix n0] ++ l)%list in Hw.
    rewrite forEach_app in Hw.
    cbn [app forEach]. unfold bind at 1.
    rewrite (writeValueAs_namespace n0 w Hreg Has).
    apply String.eqb_neq in Hn0. rewrite Hn0.
    unfold bind at 1 in Hw.
    destruct (forEach [isA n0; hasPrefix n0] (writeQuad env) w) as [[[]| |] w2];
      try discriminate.
    apply IH. exact Hw.
Qed.

End Namespaces.

(** Two namespaces written to the empty log. *)
Lemma WriteNamespaces_quads_witness :
  WriteNamespaces Fixtures.env Fixtures.conf
    [mkNamespace "rdf:" "http://rdf/"; mkNamespace "ex:" "http://ex/"] Fixtures.w0
  = (Ok tt,
     ([ mkQuad (Some (IRI "http://rdf/")) (Some (IRI "rdf:type"))
          (Some (IRI "cayley:namespace")) None;
        mkQuad (Some (IRI "http://rdf/")) (Some (IRI "cayley:prefix"))
          (Some (IRI "rdf:")) None;
        mkQuad (Some (IRI "http://ex/")) (Some (IRI "rdf:type"))
          (Some (IRI "cayley:namespace")) None;
        mkQuad (Some (IRI "http://ex/")) (Some (IRI "cayley:prefix"))
          (Some (IRI "ex:")) None ], 0)).
Proof.
  rewrite (WriteNamespaces_quads Fixtures.env Fixtures.conf
             [mkNamespace "rdf:" "http://rdf/"; mkNamespace "ex:" "http://ex/"]
             Fixtures.w0).
  - reflexivity.
  - reflexivity.
  - intros s. reflexivity.
  - repeat constructor; discriminate.
Defined.

(** The second namespace has no prefix: three quads are written. *)
Lemma WriteNamespaces_empty_prefix_witness :
  WriteNamespaces Fixtures.env Fixtures.conf
    [mkNamespace "rdf:" "http://rdf/"; mkNamespace "" "http://ex/";
     mkNamespace "v:" "http://v/"] Fixtures.w0
  = (Err (ErrReqFieldNotSet "Prefix"),
     ([ mkQuad (Some (IRI "http://rdf/")) (Some (IRI "rdf:type"))
          (Some (IRI "cayley:namespace")) None;
        mkQuad (Some (IRI "http://rdf/")) (Some (IRI "cayley:prefix"))
          (Some (IRI "rdf:")) None;
        mkQuad (Some (IRI "http://ex/")) (Some (IRI "rdf:type"))
          (Some (IRI "cayley:namespace")) None ], 0)).
Proof.
  apply (WriteNamespaces_empty_prefix Fixtures.env Fixtures.conf
           [mkNamespace "rdf:" "http://rdf/"] [mkNamespace "v:" "http://v/"]
           (mkNamespace "" "http://ex/") Fixtures.w0).
  - reflexivity.
  - intros s. reflexivity.
  - repeat constructor; discriminate.
  - reflexivity.
  - reflexivity.
Defined.

End NamespaceFacts.

(** ** Paths of types *)

Module PathFacts.

Import GoStrings.
Import Quad.
Import Schema.

(** Induction on a type with the types of the fields of a struct. *)
Lemma GoType_fields_ind (P : GoType -> Prop) :
  P TString -> P TInt -> P TBool -> (forall k, P (TQuad k)) -> P TInterface ->
  (forall e, P e -> P (TPtr e)) -> (forall e, P e -> P (TSlice e)) ->
  (forall e, P e -> P (TArray e)) -> (forall e, P e -> P (TChan e)) -> P TFunc ->
  (forall name fields,
      List.Forall (fun f => P (Type_ f)) fields -> P (TStruct name fields)) ->
  forall t, P t.
Proof.
  intros HS HI HB HQ HIf HP HSl HA HC HF HSt.
  fix IH 1. intros t. destruct t as [| | | k | | e | e | e | e | | name fields].
  - exact HS.
  - exact HI.
  - exact HB.
  - apply HQ.
  - exact HIf.
  - apply HP, IH.
  - apply HSl, IH.
  - apply HA, IH.
  - apply HC, IH.
  - exact HF.
  - apply HSt. induction fields as [|f fields IHf].
    + constructor.
    + constructor; [| exact IHf]. destruct f as [n t tg a]. apply IH.
Qed.

Section Paths.

Context {World WErr : Type}.
Variable env : Env World WErr.
Variable c : Config World.

Lemma cached_store (rootOnly : bool) (st : PathCache) (rt : GoType) (p : Path) :
  cached rootOnly (store rootOnly st rt p) rt = Some p.
Proof. destruct rootOnly; cbn; now rewrite decide_True. Qed.

(** X27. The cache of paths is keyed by the type alone, not by the prefix of
    the tags: once the path of a type has been built under a prefix that is
    not empty, that is for a type met as an embedded field, a later request
    for the same type under any other prefix that is not empty returns the
    very same path, whose tags carry the first prefix, and leaves the cache
    as it is. *)
Theorem makePathForType_reuses_cached (rt : GoType) (pref1 pref2 : string)
  (rootOnly : bool) (st st1 : PathCache) (p : Path) :
  pref1 <> "" -> pref2 <> "" ->
  makePathForType env c rt pref1 rootOnly st = (Ok p, st1) ->
  makePathForType env c rt pref2 rootOnly st1 = (Ok p, st1).
Proof.
  intros H1 H2. apply String.eqb_neq in H1, H2.
  induction rt as [| | | k | | e IH | e _ | e _ | e _ | | name fields];
    cbn [makePathForType]; try discriminate.
  - exact IH.
  - rewrite H1, H2.
    destruct (cached rootOnly st (TStruct name fields)) as [p0|] eqn:Ec.
    + intros [= <- <-]. now rewrite Ec.
    + destruct (pathFieldsWith _ _ _ _ _ _ _ _) as [[p1| |] st2]; try discriminate.
      intros [= <- <-]. now rewrite cached_store.
Qed.

Lemma pathFields_flat (tagPref : string) (rootOnly : bool)
  (fields : list StructField) (p : Path) (st : PathCache) :
  Forall (fun f => Anonymous f = false /\
                   exists r, fieldRule env c f = Ok r /\
                             (r <> None ->
                              checkFieldType (WErr:=WErr) (derefType (Type_ f)) = None))
    fields ->
  pathFieldsWith env c (makePathForType env c) tagPref rootOnly fields p st
  = (Ok (p ++ flat_map (fun f =>
                          match fieldRule env c f with
                          | Ok (Some r) => ruleOps r (tagPref ++ Name f)%string rootOnly
                          | _ => []
                          end) fields)%list, st).
Proof.
  intros H. revert p. induction H as [|f fs (Ha & r & Hr & Hc) H IH]; intros p;
    cbn [pathFieldsWith flat_map].
  - now rewrite app_nil_r.
  - rewrite Ha, Hr. destruct r as [r|].
    + rewrite Hc by discriminate. rewrite IH. now rewrite <- app_assoc.
    + apply IH.
Qed.

(** X28. The path of a record type without embedded fields, all of whose
    annotations are readable and whose fields are neither arrays nor
    functions: the cache is neither read nor written; a registered type
    starts the path with the constraint that the node has the type, under
    the predicate [c.iri(rdf:type)] and with the IRI as it was registered,
    not passed through [c.iri]; then every field that has a rule adds its
    operators, in the order of declaration, and the tag of a field is its
    name, the key of its rule in [rulesFor]. *)
Theorem makePathForType_flat (name : string) (fields : list StructField)
  (rootOnly : bool) (st : PathCache) :
  Forall (fun f => Anonymous f = false /\
                   exists r, fieldRule env c f = Ok r /\
                             (r <> None ->
                              checkFieldType (WErr:=WErr) (derefType (Type_ f)) = None))
    fields ->
  makePathForType env c (TStruct name fields) "" rootOnly st
  = (Ok ((if negb (String.eqb (typeToIRI env (TStruct name fields)) "")
          then [Has (iri env c (iriType env)) [typeToIRI env (TStruct name fields)]]
          else [])
         ++ flat_map (fun f =>
                        match fieldRule env c f with
                        | Ok (Some r) => ruleOps r (Name f) rootOnly
                        | _ => []
                        end) fields)%list, st).
Proof.
  intros H. cbn [makePathForType String.eqb].
  rewrite (pathFields_flat "" rootOnly fields _ st H). reflexivity.
Qed.

Lemma ruleOps_rootOnly (r : rule) (tag : string) :
  existsb savesOp (ruleOps r tag true) = false.
Proof. destruct r as [p v [] | p [] [] |]; reflexivity. Qed.

(** X29. A path built for the root only saves nothing: whatever the type,
    its embedded fields and the prefix, and whatever was cached before as
    long as that saves nothing either, no operator of the path returned, at
    any depth of [Follow], is one of the four [Save] operators, and the same
    holds for every path the call leaves in the cache of root paths, also
    when the call fails. *)
Theorem makePathForType_rootOnly_saves_nothing (rt : GoType) (tagPref : string)
  (st st' : PathCache) (r : Res (pathError WErr) Path) :
  (forall t p, pathForTypeRoot st t = Some p -> existsb savesOp p = false) ->
  makePathForType env c rt tagPref true st = (r, st') ->
  (forall t p, pathForTypeRoot st' t = Some p -> existsb savesOp p = false) /\
  (forall p, r = Ok p -> existsb savesOp p = false).
Proof.
  revert tagPref st st' r.
  induction rt as [| | | k | | e IH | e _ | e _ | e _ | | name fields IH]
    using GoType_fields_ind;
    intros tagPref st st' r Hinv; cbn [makePathForType];
    try (intros [= <- <-]; split; [exact Hinv | discriminate]).
  - now apply IH.
  - destruct (if String.eqb tagPref "" then None
              else cached true st (TStruct name fields)) as [p0|] eqn:Ec.
    { intros [= <- <-]. split; [exact Hinv |]. intros p [= <-].
      destruct (String.eqb tagPref ""); [discriminate |].
      now apply (Hinv (TStruct name fields)). }
    set (p0 := if negb (String.eqb (typeToIRI env (TStruct name fields)) "")
               then _ else _).
    assert (Hp0 : existsb savesOp p0 = false).
    { unfold p0. now destruct (negb _). }
    clearbody p0. clear Ec.
    assert (Hloop : forall p st r1 st1,
               existsb savesOp p = false ->
               (forall t q, pathForTypeRoot st t = Some q -> existsb savesOp q = false) ->
               pathFieldsWith env c (makePathForType env c) tagPref true fields p st
               = (r1, st1) ->
               (forall t q, pathForTypeRoot st1 t = Some q -> existsb savesOp q = false) /\
               (forall q, r1 = Ok q -> existsb savesOp q = false)).
    { clear Hinv st st' r p0 Hp0.
      induction IH as [|f fs Hf IH IHfs]; intros p st r1 st1 Hp Hinv;
        cbn [pathFieldsWith].
      - intros [= <- <-]. split; [exact Hinv |]. now intros q [= <-].
      - destruct (Anonymous f).
        + destruct (makePathForType env c (Type_ f) _ true st) as [ra sta] eqn:Ea.
          destruct (Hf _ _ _ _ Hinv Ea) as [Hinva Hra].
          destruct ra as [pa| |].
          * apply IHfs; [| exact Hinva].
            rewrite existsb_app, Hp. cbn. rewrite (Hra pa eq_refl). reflexivity.
          * intros [= <- <-]. split; [exact Hinva | discriminate].
          * intros [= <- <-]. split; [exact Hinva | discriminate].
        + destruct (fieldRule env c f) as [[rl|]| |].
          * destruct (checkFieldType _).
            -- intros [= <- <-]. split; [exact Hinv | discriminate].
            -- apply IHfs; [| exact Hinv].
               now rewrite existsb_app, Hp, ruleOps_rootOnly.
          * now apply IHfs.
          * intros [= <- <-]. split; [exact Hinv | discriminate].
          * intros [= <- <-]. split; [exact Hinv | discriminate]. }
    destruct (pathFieldsWith _ _ _ _ _ _ _ _) as [r1 st1] eqn:El.
    destruct (Hloop _ _ _ _ Hp0 Hinv El) as [Hinv1 Hr1].
    destruct r1 as [p1| |].
    + destruct (String.eqb tagPref "").
      * intros [= <- <-]. split; [exact Hinv1 | exact Hr1].
      * intros [= <- <-]. split; [| exact Hr1].
        intros t q. cbn. destruct (decide _); [| apply Hinv1].
        intros [= <-]. now apply Hr1.
    + intros [= <- <-]. split; [exact Hinv1 | discriminate].
    + intros [= <- <-]. split; [exact Hinv1 | discriminate].
Qed.

End Paths.

(** The path of [Item] built under the prefix [Nested.Item.] and asked for
    again under the prefix [Item.]. *)
Lemma makePathForType_reuses_cached_witness :
  makePathForType (WErr:=string) Fixtures.env Fixtures.conf Fixtures.Item "Item."
    false (store false emptyPathCache Fixtures.Item [Save "name" "Nested.Item.Name"])
  = (Ok [Save "name" "Nested.Item.Name"],
     store false emptyPathCache Fixtures.Item [Save "name" "Nested.Item.Name"]).
Proof.
  apply (makePathForType_reuses_cached (WErr:=string) Fixtures.env Fixtures.conf
           Fixtures.Item "Nested.Item." "Item." false emptyPathCache).
  - discriminate.
  - discriminate.
  - reflexivity.
Defined.

(** The path of the registered type [Person]. *)
Lemma makePathForType_flat_witness :
  makePathForType (WErr:=string) Fixtures.env Fixtures.conf Fixtures.Person ""
    false emptyPathCache
  = (Ok [ Has "rdf:type" ["ex:Person"]; TagOp "ID"; Save "name" "Name";
          SaveOptional "follows" "Follows" ], emptyPathCache).
Proof.
  refine (eq_trans
            (makePathForType_flat (WErr:=string) Fixtures.env Fixtures.conf "Person"
               [ Fixtures.field "ID" (TQuad QIRI) "@id";
                 Fixtures.field "Name" TString "name";
                 Fixtures.field "Follows" (TSlice (TQuad QIRI)) "follows" ]
               false emptyPathCache _)
            eq_refl).
  repeat constructor; eexists; (split; [reflexivity | intros _; reflexivity]).
Defined.

(** The root path of [Twice], which embeds [Item] at two depths. *)
Lemma makePathForType_rootOnly_saves_nothing_witness :
  existsb savesOp
    [ Follow [Follow [Has "name" []]]; Follow [Has "name" []] ] = false.
Proof.
  refine (proj2 (makePathForType_rootOnly_saves_nothing (WErr:=string)
                   Fixtures.env Fixtures.conf Fixtures.Twice "" emptyPathCache
                   _ _ _ eq_refl) _ eq_refl).
  intros t p H. discriminate H.
Defined.

(** The type [Twice] embeds [Item] directly and through [Nested]. Its rules
    hold the required rule of [Name] under the keys [Nested.Item.Name] and
    [Item.Name]; its path, built from the empty cache, saves the name under
    the tag [Nested.Item.Name] twice and under the tag [Item.Name] never:
    the path of [Item] cached for the first embedding is taken for the
    second. *)
Example makePathForType_embedded_twice :
  rulesFor (WErr:=string) Fixtures.env Fixtures.conf Fixtures.Twice
  = Ok (<["Item.Name" := saveRule "name" false false]>
          {["Nested.Item.Name" := saveRule "name" false false]}) /\
  fst (PathForType (WErr:=string) Fixtures.env Fixtures.conf Fixtures.Twice
         emptyPathCache)
  = Ok [ Follow [Follow [Save "name" "Nested.Item.Name"]];
         Follow [Save "name" "Nested.Item.Name"] ].
Proof. split; reflexivity. Qed.

(** The type quad of a record and the constraint of its path differ when
    the configuration rewrites IRIs: [WriteAsQuads] normalises the registered
    IRI with [c.iri], [makePathForType] does not. Here [c.iri] expands
    [ex:] under [IRIFull]. *)
Example type_constraint_not_normalised :
  let env' :=
    {| Short := Short Fixtures.env;
       Full := fun s => if String.eqb s "ex:Person" then "http://ex/Person" else s;
       rdf_Type := rdf_Type Fixtures.env;
       AsValue := AsValue Fixtures.env;
       RandomBlankNode := RandomBlankNode Fixtures.env;
       GenerateID_pkg := GenerateID_pkg Fixtures.env;
       typeToIRI := typeToIRI Fixtures.env;
       WriteQuad := WriteQuad Fixtures.env |} in
  let c' := {| IRIs := IRIFull; GenerateID := None; Label := None |} in
  typeQuad env' c' (Some (IRI "alice")) (typeToIRI env' Fixtures.Person)
  = mkQuad (Some (IRI "alice")) (Some (IRI "rdf:type"))
      (Some (IRI "http://ex/Person")) None /\
  hd_error (match fst (PathForType (WErr:=string) env' c' Fixtures.Person
                         emptyPathCache) with
            | Ok p => p
            | _ => []
            end)
  = Some (Has "rdf:type" ["ex:Person"]).
Proof. split; reflexivity. Qed.

End PathFacts.

(** ** What a result of the scanner tells *)

Module ParseMore.

Import Quad.

Import NQuads.
Import NQuadsFacts.

Section Parse.

Variable unEscape : list rune -> Z -> bool -> bool -> Value.
Variable m : Machine.

(** X30. What the result of [Parse] tells about the input, for any tables of
    the scanner. A nil error means that the scanner read the whole input and
    ended in a final state; [ErrIncomplete] that it read the whole input and
    ended in a state that is not final; an error that reports the rune [r]
    at the position [p] means that [r] is the rune at index [p] of the input,
    that the scanner read the [p] runes before it and had no transition on
    it from a state that is not final, and that the code point is printed
    exactly when [r] is not below [unicode.MaxASCII]; and the plain
    [ErrInvalid] comes with the empty quad, after the scanner has stopped in
    a final state on a rune of the input. *)
Theorem Parse_result_reports (data : list rune) (q0 : Quad)
  (err : option parseError) :
  Parse unEscape m data = Returned q0 err ->
  match err with
  | None =>
      exists cs, scan m data 0 (start m) = AtEOF cs /\ final m cs = true
  | Some ErrIncomplete =>
      exists cs, scan m data 0 (start m) = AtEOF cs /\ final m cs = false
  | Some (ErrUnexpectedRune r p b) =>
      exists cs, scan m data 0 (start m) = Stuck cs p r /\ final m cs = false /\
                 nth_error data p = Some r /\ b = negb (r <? MaxASCII)%N
  | Some ErrInvalid =>
      exists cs p r, scan m data 0 (start m) = Stuck cs p r /\ final m cs = true /\
                     nth_error data p = Some r /\
                     q0 = mkQuad None None None None
  end.
Proof.
  intros H. unfold Parse in H.
  destruct (exec_ends unEscape m data data 0 (start m) initVars eq_refl) as [Hp | He].
  { congruence. }
  destruct (scan m data 0 (start m)) as [cs | cs p r].
  - destruct (final m cs) eqn:Ef; destruct He as [q1 He]; rewrite He in H;
      injection H as <- <-; exists cs; now split.
  - destruct He as [Hn He]. destruct (final m cs) eqn:Ef.
    + rewrite He in H. injection H as <- <-. exists cs, p, r. now repeat split.
    + destruct He as [q1 He]. rewrite He in H. injection H as <- <-.
      exists cs. now repeat split.
Qed.

End Parse.

(** The statement [<a> <b> .], whose dot at index 8 is reported. *)
Lemma Parse_result_reports_witness :
  exists cs,
    scan iriMachine (runes "<a> <b> .") 0 (start iriMachine) = Stuck cs 8 46%N /\
    final iriMachine cs = false /\
    nth_error (runes "<a> <b> .") 8 = Some 46%N /\
    false = negb (46 <? MaxASCII)%N.
Proof.
  exact (Parse_result_reports unEscapeIRI iriMachine (runes "<a> <b> .")
           (mkQuad (Some (IRI "a")) (Some (IRI "b")) None None)
           (Some (ErrUnexpectedRune 46%N 8 false)) eq_refl).
Defined.

End ParseMore.
